(** * PipBoy server: inventory, party storage, catalog and login

    A shallow embedding of [src/pipboy-server.js].  The SQLite database is
    an explicit state, every [db.run] statement is a function on that state
    returning what the callback sees ([err], [this.lastID], [this.changes]),
    and every Express route is a handler in a small state-and-log monad whose
    log is the list of [broadcast] calls.

    Conventions of the model:
    - a table with a UNIQUE key is a finite map on that key;
    - a string is a JavaScript string whose code units are all below 256
      (the Latin-1 range), one [ascii] per code unit; strings with other
      code units are outside the model;
    - a quantity of a request is an integer-valued JavaScript number (or is
      left out, [None]); fractions, Infinity and other JSON values are
      outside the model.  A stored quantity is an SQLite INTEGER or REAL
      with an integer value, and sums and differences are computed as
      SQLite computes them, in 64-bit integers or in doubles;
    - GET /api/quests orders by creation time and /api/health answers
      with the clock; both need the timestamps and are not part of the
      model;
    - the timestamps and the row ids of [user_inventory] and [party_storage]
      are never read by a route and are left out;
    - statements issued without a callback complete before the next request;
    - the only statement error is the UNIQUE constraint. *)

From stdpp Require Import gmap strings list fin_maps sorting.
From Stdlib Require Import ZArith Ascii String.

Open Scope string_scope.
Open Scope Z_scope.

(** ** Key derivation: [name.toLowerCase().replace(/\s+/g, '-')] *)

Module Slug.

(** The code units below 256 that [toLowerCase] changes: A to Z, and the
    Latin-1 capitals U+00C0 to U+00DE without the multiplication sign
    U+00D7.  Each is 32 below its lower-case letter. *)
Definition is_upper (c : ascii) : bool :=
  let n := nat_of_ascii c in
  (((65 <=? n) && (n <=? 90))
   || ((192 <=? n) && (n <=? 222) && negb (n =? 215)))%nat.

(** [toLowerCase] on one code unit. *)
Definition lower_char (c : ascii) : ascii :=
  if is_upper c then ascii_of_nat (nat_of_ascii c + 32) else c.

Fixpoint toLowerCase (s : string) : string :=
  match s with
  | EmptyString => EmptyString
  | String c s' => String (lower_char c) (toLowerCase s')
  end.

(** The class [\s] below 256: tab, line feed, vertical tab, form feed,
    carriage return, space and the no-break space U+00A0. *)
Definition is_whitespace (c : ascii) : bool :=
  let n := nat_of_ascii c in
  (((9 <=? n) && (n <=? 13)) || (n =? 32) || (n =? 160))%nat.

(** [replace(/\s+/g, '-')]: [in_run] tells that the previous character
    belonged to a whitespace run whose dash is already written. *)
Fixpoint replace_runs (in_run : bool) (s : string) : string :=
  match s with
  | EmptyString => EmptyString
  | String c s' =>
      if is_whitespace c
      then (if in_run then replace_runs true s'
            else String "-" (replace_runs true s'))
      else String c (replace_runs false s')
  end.

Definition derive_key (name : string) : string :=
  replace_runs false (toLowerCase name).

End Slug.

(** ** Numbers

    What [node-sqlite3] and SQLite do with the quantities.  A JavaScript
    number that is a 32-bit integer is bound as an INTEGER, any other as a
    REAL (a double).  INTEGER plus or minus INTEGER is computed in 64-bit
    integers; when that overflows, or when an operand is a REAL, both
    operands become doubles and the result is the double nearest to the
    exact one.  A REAL written to the INTEGER column [quantity] is stored
    as an INTEGER when it lies strictly between the least and the greatest
    64-bit integer.  Comparisons are exact.  Doubles are finite here:
    magnitudes of 2^1024 and more are outside the model. *)

Inductive Number :=
| INTEGER (i : Z)
| REAL (r : Z).

Module Sqlite.

Definition value (x : Number) : Z :=
  match x with
  | INTEGER i => i
  | REAL r => r
  end.

Definition int32 (z : Z) : Prop := -2 ^ 31 <= z < 2 ^ 31.
Definition int64 (z : Z) : Prop := -2 ^ 63 <= z < 2 ^ 63.

#[global] Instance int32_dec (z : Z) : Decision (int32 z) :=
  decide (-2 ^ 31 <= z < 2 ^ 31).

#[global] Instance int64_dec (z : Z) : Decision (int64 z) :=
  decide (-2 ^ 63 <= z < 2 ^ 63).

(** The gap between neighbouring doubles at the magnitude [m]: 1 below
    2^53, then 2^(e-52) where 2^e <= m < 2^(e+1). *)
Definition ulp (m : Z) : Z :=
  if m <? 2 ^ 53 then 1 else 2 ^ (Z.log2 m - 52).

(** The multiple of [u] nearest to [m], the even one of two when [m] is
    half way. *)
Definition nearest_even (u m : Z) : Z :=
  let q := m / u in
  let r := m mod u in
  if 2 * r <? u then q * u
  else if u <? 2 * r then (q + 1) * u
  else if Z.even q then q * u else (q + 1) * u.

(** The double nearest to a magnitude [m]. *)
Definition round_abs (m : Z) : Z := nearest_even (ulp m) m.

(** The double nearest to the integer [z]. *)
Definition to_double (z : Z) : Z := Z.sgn z * round_abs (Z.abs z).

(** A parameter [?] bound to the JavaScript number [q]. *)
Definition bind (q : Z) : Number :=
  if decide (int32 q) then INTEGER q else REAL q.

(** The value as a double: what an INTEGER operand becomes next to a REAL
    one or after an overflow, and what JavaScript gets when it reads the
    column. *)
Definition real_value (x : Number) : Z := to_double (value x).

(** [a + b] *)
Definition add (a b : Number) : Number :=
  match a, b with
  | INTEGER i, INTEGER j =>
      if decide (int64 (i + j)) then INTEGER (i + j)
      else REAL (to_double (to_double i + to_double j))
  | _, _ => REAL (to_double (real_value a + real_value b))
  end.

(** [a - b] *)
Definition sub (a b : Number) : Number :=
  match a, b with
  | INTEGER i, INTEGER j =>
      if decide (int64 (i - j)) then INTEGER (i - j)
      else REAL (to_double (to_double i - to_double j))
  | _, _ => REAL (to_double (real_value a - real_value b))
  end.

(** The INTEGER affinity of the column, applied to what is written. *)
Definition affinity (x : Number) : Number :=
  match x with
  | INTEGER i => INTEGER i
  | REAL r => if decide (-2 ^ 63 < r < 2 ^ 63 - 1) then INTEGER r else REAL r
  end.

End Sqlite.

(** ** Tables *)

Record User := mkUser {
  user_id : Z;
  password_hash : string;
  is_admin : bool
}.

Record Item := mkItem {
  item_id : Z;
  item_name : string;
  item_description : string;
  item_image_url : string
}.

Record Quest := mkQuest {
  quest_id : Z;
  quest_name : string;
  quest_description : string;
  quest_image_url : string;
  quest_is_active : bool
}.

(** [users] is keyed by [username], [items] by [item_key], [user_inventory]
    by [(user_id, item_key)], [party_storage] by [item_key], [quests] by
    [quest_key].  The [seq_] fields are the AUTOINCREMENT counters. *)
Record Db := mkDb {
  users : gmap string User;
  seq_users : Z;
  items : gmap string Item;
  seq_items : Z;
  user_inventory : gmap (Z * string) Number;
  party_storage : gmap string Number;
  quests : gmap string Quest;
  seq_quests : Z
}.

Definition empty_db : Db :=
  mkDb ∅ 0 ∅ 0 ∅ ∅ ∅ 0.

Definition set_users (f : gmap string User → gmap string User) (s : Z) (db : Db) : Db :=
  mkDb (f (users db)) s (items db) (seq_items db)
       (user_inventory db) (party_storage db) (quests db) (seq_quests db).

Definition set_items (f : gmap string Item → gmap string Item) (s : Z) (db : Db) : Db :=
  mkDb (users db) (seq_users db) (f (items db)) s
       (user_inventory db) (party_storage db) (quests db) (seq_quests db).

Definition set_user_inventory
    (f : gmap (Z * string) Number → gmap (Z * string) Number) (db : Db) : Db :=
  mkDb (users db) (seq_users db) (items db) (seq_items db)
       (f (user_inventory db)) (party_storage db) (quests db) (seq_quests db).

Definition set_party_storage (f : gmap string Number → gmap string Number) (db : Db) : Db :=
  mkDb (users db) (seq_users db) (items db) (seq_items db)
       (user_inventory db) (f (party_storage db)) (quests db) (seq_quests db).

Definition set_quests (f : gmap string Quest → gmap string Quest) (s : Z) (db : Db) : Db :=
  mkDb (users db) (seq_users db) (items db) (seq_items db)
       (user_inventory db) (party_storage db) (f (quests db)) s.

(** ** Statements *)

Inductive SqlError := SQLITE_CONSTRAINT | SQLITE_ERROR.

(** What the callback of [db.run] reads from [this]. *)
Record RunResult := mkRun { lastID : Z; changes : Z }.

Definition Stmt := Db → (SqlError + RunResult) * Db.

Module Sql.

(** INSERT INTO users (username, password_hash) VALUES (?, ?);
    [is_admin] takes its DEFAULT FALSE. *)
Definition insert_user (username hash : string) : Stmt := λ db,
  match users db !! username with
  | Some _ => (inl SQLITE_CONSTRAINT, db)
  | None =>
      let id := seq_users db + 1 in
      (inr (mkRun id 1),
       set_users (insert username (mkUser id hash false)) id db)
  end.

(** INSERT INTO items (item_key, name, description, image_url) VALUES (?, ?, ?, ?) *)
Definition insert_item (item_key name description image : string) : Stmt := λ db,
  match items db !! item_key with
  | Some _ => (inl SQLITE_CONSTRAINT, db)
  | None =>
      let id := seq_items db + 1 in
      (inr (mkRun id 1),
       set_items (insert item_key (mkItem id name description image)) id db)
  end.

(** DELETE FROM items WHERE item_key = ? *)
Definition delete_item (item_key : string) : Stmt := λ db,
  match items db !! item_key with
  | Some _ => (inr (mkRun (seq_items db) 1),
               set_items (delete item_key) (seq_items db) db)
  | None => (inr (mkRun (seq_items db) 0), db)
  end.

(** DELETE FROM user_inventory WHERE item_key = ? *)
Definition delete_inventory_of_item (item_key : string) : Stmt := λ db,
  let kept := filter (λ kv : (Z * string) * Number, kv.1.2 ≠ item_key) (user_inventory db) in
  (inr (mkRun 0 (Z.of_nat (size (user_inventory db)) - Z.of_nat (size kept))),
   set_user_inventory (λ _, kept) db).

(** DELETE FROM party_storage WHERE item_key = ? *)
Definition delete_storage_of_item (item_key : string) : Stmt := λ db,
  match party_storage db !! item_key with
  | Some _ => (inr (mkRun 0 1), set_party_storage (delete item_key) db)
  | None => (inr (mkRun 0 0), db)
  end.

(** INSERT INTO user_inventory (user_id, item_key, quantity) VALUES (?, ?, ?)
    ON CONFLICT(user_id, item_key) DO UPDATE SET quantity = quantity + ? *)
Definition upsert_inventory (user : Z) (item_key : string) (q1 q2 : Z) : Stmt := λ db,
  match user_inventory db !! (user, item_key) with
  | Some n =>
      (inr (mkRun 0 1),
       set_user_inventory
         (insert (user, item_key) (Sqlite.affinity (Sqlite.add n (Sqlite.bind q2)))) db)
  | None =>
      (inr (mkRun 0 1),
       set_user_inventory
         (insert (user, item_key) (Sqlite.affinity (Sqlite.bind q1))) db)
  end.

(** UPDATE user_inventory SET quantity = quantity - ?
    WHERE user_id = ? AND item_key = ? AND quantity > ? *)
Definition decrement_inventory (q1 : Z) (user : Z) (item_key : string) (q2 : Z) : Stmt := λ db,
  match user_inventory db !! (user, item_key) with
  | Some n =>
      if bool_decide (Sqlite.value n > Sqlite.value (Sqlite.bind q2))
      then (inr (mkRun 0 1),
            set_user_inventory
              (insert (user, item_key) (Sqlite.affinity (Sqlite.sub n (Sqlite.bind q1)))) db)
      else (inr (mkRun 0 0), db)
  | None => (inr (mkRun 0 0), db)
  end.

(** DELETE FROM user_inventory
    WHERE user_id = ? AND item_key = ? AND quantity <= 0 *)
Definition delete_inventory_nonpositive (user : Z) (item_key : string) : Stmt := λ db,
  match user_inventory db !! (user, item_key) with
  | Some n =>
      if bool_decide (Sqlite.value n <= 0)
      then (inr (mkRun 0 1), set_user_inventory (delete (user, item_key)) db)
      else (inr (mkRun 0 0), db)
  | None => (inr (mkRun 0 0), db)
  end.

(** INSERT INTO party_storage (item_key, quantity) VALUES (?, ?)
    ON CONFLICT(item_key) DO UPDATE SET quantity = quantity + ? *)
Definition upsert_storage (item_key : string) (q1 q2 : Z) : Stmt := λ db,
  match party_storage db !! item_key with
  | Some n =>
      (inr (mkRun 0 1),
       set_party_storage
         (insert item_key (Sqlite.affinity (Sqlite.add n (Sqlite.bind q2)))) db)
  | None =>
      (inr (mkRun 0 1),
       set_party_storage (insert item_key (Sqlite.affinity (Sqlite.bind q1))) db)
  end.

(** UPDATE party_storage SET quantity = quantity - ?
    WHERE item_key = ? AND quantity > ? *)
Definition decrement_storage (q1 : Z) (item_key : string) (q2 : Z) : Stmt := λ db,
  match party_storage db !! item_key with
  | Some n =>
      if bool_decide (Sqlite.value n > Sqlite.value (Sqlite.bind q2))
      then (inr (mkRun 0 1),
            set_party_storage
              (insert item_key (Sqlite.affinity (Sqlite.sub n (Sqlite.bind q1)))) db)
      else (inr (mkRun 0 0), db)
  | None => (inr (mkRun 0 0), db)
  end.

(** DELETE FROM party_storage WHERE item_key = ? AND quantity <= 0 *)
Definition delete_storage_nonpositive (item_key : string) : Stmt := λ db,
  match party_storage db !! item_key with
  | Some n =>
      if bool_decide (Sqlite.value n <= 0)
      then (inr (mkRun 0 1), set_party_storage (delete item_key) db)
      else (inr (mkRun 0 0), db)
  | None => (inr (mkRun 0 0), db)
  end.

(** INSERT INTO quests (quest_key, name, description, image_url) VALUES (?, ?, ?, ?);
    [is_active] takes its DEFAULT TRUE. *)
Definition insert_quest (quest_key name description image : string) : Stmt := λ db,
  match quests db !! quest_key with
  | Some _ => (inl SQLITE_CONSTRAINT, db)
  | None =>
      let id := seq_quests db + 1 in
      (inr (mkRun id 1),
       set_quests (insert quest_key (mkQuest id name description image true)) id db)
  end.

(** DELETE FROM quests WHERE quest_key = ? *)
Definition delete_quest (quest_key : string) : Stmt := λ db,
  match quests db !! quest_key with
  | Some _ => (inr (mkRun (seq_quests db) 1),
               set_quests (delete quest_key) (seq_quests db) db)
  | None => (inr (mkRun (seq_quests db) 0), db)
  end.

End Sql.

(** ** Requests, responses and broadcasts *)

(** The payload of a token as the middleware reads it from [req.user]:
    [isAdmin] by its truth value, which is all [requireAdmin] looks at.
    The [iat] and [exp] that [jwt.sign] adds are left out: a token stands
    for the payload handed to [jwt.sign]. *)
Record Claims := mkClaims { userId : Z; username : string; isAdmin : bool }.

(** The [isAdmin] of a login answer as it is serialized: the literal
    [false] of the registration branch, or the number that SQLite holds in
    the BOOLEAN column [is_admin], 0 or 1. *)
Inductive Flag :=
| Literal (b : bool)
| Column (n : Z).

(** What [authenticateToken] finds in the Authorization header. *)
Inductive Credential :=
| NoToken
| InvalidToken
| ValidToken (user : Claims).

Inductive Body :=
| ErrorBody (error : string)
| MessageBody (message : string)
| ItemBody (item_key : string) (item : Item)
| QuestBody (quest_key : string) (quest : Quest)
| LoginBody (token : Claims) (id : Z) (name : string) (admin : Flag).

Record Response := mkResponse { status : Z; body : Body }.

Definition json (b : Body) : Response := mkResponse 200 b.
Definition status_json (code : Z) (b : Body) : Response := mkResponse code b.

Inductive Payload :=
| NoPayload
| ItemPayload (item_key : string) (item : Item)
| ItemKeyPayload (itemKey : string)
| QuestPayload (quest_key : string) (quest : Quest)
| QuestKeyPayload (questKey : string).

(** The argument of one [broadcast] call. *)
Record Event := mkEvent { ev_type : string; ev_payload : Payload }.

(** A body field is absent or a string; [!field] holds for both the absent
    and the empty one. *)
Definition falsy (field : option string) : bool :=
  match field with
  | None => true
  | Some s => bool_decide (s = "")
  end.

Definition str (field : option string) : string := default "" field.

(** ** Handlers: state passing with a log of broadcasts *)

Definition Handler (A : Type) : Type := Db → A * Db * list Event.

Definition ret {A} (a : A) : Handler A := λ db, (a, db, []).

Definition bind {A B} (m : Handler A) (k : A → Handler B) : Handler B := λ db,
  let '(a, db1, log1) := m db in
  let '(b, db2, log2) := k a db1 in
  (b, db2, (log1 ++ log2)%list).

Notation "'let*' x := m 'in' k" := (bind m (λ x, k))
  (at level 10, x binder, m at level 100, k at level 200).

Definition db_run (s : Stmt) : Handler (SqlError + RunResult) := λ db,
  let '(r, db') := s db in (r, db', []).

(** SELECT * FROM users WHERE username = ? *)
Definition db_get_user (name : string) : Handler (option User) := λ db,
  (users db !! name, db, []).

Definition broadcast (e : Event) : Handler unit := λ db, (tt, db, [e]).

Definition response_of (r : Response * Db * list Event) : Response := r.1.1.
Definition db_of (r : Response * Db * list Event) : Db := r.1.2.
Definition log_of (r : Response * Db * list Event) : list Event := r.2.

Definition authenticateToken (c : Credential) (next : Claims → Handler Response)
  : Handler Response :=
  match c with
  | NoToken => ret (status_json 401 (ErrorBody "Access token required"))
  | InvalidToken => ret (status_json 403 (ErrorBody "Invalid token"))
  | ValidToken user => next user
  end.

Definition requireAdmin (user : Claims) (next : Handler Response) : Handler Response :=
  if isAdmin user then next
  else ret (status_json 403 (ErrorBody "Admin privileges required")).

(** POST /api/items (createItem) *)
Definition post_items (c : Credential) (name description imageUrl : option string)
  : Handler Response :=
  authenticateToken c (λ user, requireAdmin user (
    if falsy name || falsy description
    then ret (status_json 400 (ErrorBody "Name and description required"))
    else
      let itemKey := Slug.derive_key (str name) in
      let image := if falsy imageUrl then "/api/placeholder/200/150" else str imageUrl in
      let* r := db_run (Sql.insert_item itemKey (str name) (str description) image) in
      match r with
      | inl SQLITE_CONSTRAINT => ret (status_json 400 (ErrorBody "Item already exists"))
      | inl _ => ret (status_json 500 (ErrorBody "Database error"))
      | inr this =>
          let newItem := mkItem (lastID this) (str name) (str description) image in
          let* _ := broadcast (mkEvent "ITEM_ADDED" (ItemPayload itemKey newItem)) in
          ret (json (ItemBody itemKey newItem))
      end)).

(** DELETE /api/items/:itemKey (deleteItem) *)
Definition delete_items (c : Credential) (itemKey : string) : Handler Response :=
  authenticateToken c (λ user, requireAdmin user (
    let* r := db_run (Sql.delete_item itemKey) in
    match r with
    | inl _ => ret (status_json 500 (ErrorBody "Database error"))
    | inr this =>
        if bool_decide (changes this = 0)
        then ret (status_json 404 (ErrorBody "Item not found"))
        else
          let* _ := db_run (Sql.delete_inventory_of_item itemKey) in
          let* _ := db_run (Sql.delete_storage_of_item itemKey) in
          let* _ := broadcast (mkEvent "ITEM_DELETED" (ItemKeyPayload itemKey)) in
          ret (json (MessageBody "Item deleted successfully"))
    end)).

(** POST /api/inventory (addToInventory) *)
Definition post_inventory (c : Credential) (itemKey : option string) (quantity : option Z)
  : Handler Response :=
  authenticateToken c (λ user,
    let quantity := default 1 quantity in
    if falsy itemKey
    then ret (status_json 400 (ErrorBody "Item key required"))
    else
      let* r := db_run (Sql.upsert_inventory (userId user) (str itemKey) quantity quantity) in
      match r with
      | inl _ => ret (status_json 500 (ErrorBody "Database error"))
      | inr _ => ret (json (MessageBody "Item added to inventory"))
      end).

(** DELETE /api/inventory/:itemKey (removeFromInventory) *)
Definition delete_inventory (c : Credential) (itemKey : string) (quantity : option Z)
  : Handler Response :=
  authenticateToken c (λ user,
    let quantity := default 1 quantity in
    let* r := db_run (Sql.decrement_inventory quantity (userId user) itemKey quantity) in
    match r with
    | inl _ => ret (status_json 500 (ErrorBody "Database error"))
    | inr this =>
        let* _ :=
          if bool_decide (changes this > 0)
          then db_run (Sql.delete_inventory_nonpositive (userId user) itemKey)
          else ret (inr this) in
        ret (json (MessageBody "Item removed from inventory"))
    end).

(** POST /api/party-storage (addToStorage) *)
Definition post_party_storage (c : Credential) (itemKey : option string) (quantity : option Z)
  : Handler Response :=
  authenticateToken c (λ user,
    let quantity := default 1 quantity in
    if falsy itemKey
    then ret (status_json 400 (ErrorBody "Item key required"))
    else
      let* r := db_run (Sql.upsert_storage (str itemKey) quantity quantity) in
      match r with
      | inl _ => ret (status_json 500 (ErrorBody "Database error"))
      | inr _ =>
          let* _ := broadcast (mkEvent "PARTY_STORAGE_UPDATED" NoPayload) in
          ret (json (MessageBody "Item added to party storage"))
      end).

(** DELETE /api/party-storage/:itemKey (removeFromStorage) *)
Definition delete_party_storage (c : Credential) (itemKey : string) (quantity : option Z)
  : Handler Response :=
  authenticateToken c (λ user,
    let quantity := default 1 quantity in
    let* r := db_run (Sql.decrement_storage quantity itemKey quantity) in
    match r with
    | inl _ => ret (status_json 500 (ErrorBody "Database error"))
    | inr this =>
        let* _ :=
          if bool_decide (changes this > 0)
          then db_run (Sql.delete_storage_nonpositive itemKey)
          else ret (inr this) in
        let* _ := broadcast (mkEvent "PARTY_STORAGE_UPDATED" NoPayload) in
        ret (json (MessageBody "Item removed from party storage"))
    end).

(** POST /api/quests (createQuest) *)
Definition post_quests (c : Credential) (name description imageUrl : option string)
  : Handler Response :=
  authenticateToken c (λ user, requireAdmin user (
    if falsy name || falsy description
    then ret (status_json 400 (ErrorBody "Name and description required"))
    else
      let questKey := Slug.derive_key (str name) in
      let image := if falsy imageUrl then "/api/placeholder/400/200" else str imageUrl in
      let* r := db_run (Sql.insert_quest questKey (str name) (str description) image) in
      match r with
      | inl SQLITE_CONSTRAINT => ret (status_json 400 (ErrorBody "Quest already exists"))
      | inl _ => ret (status_json 500 (ErrorBody "Database error"))
      | inr this =>
          let newQuest := mkQuest (lastID this) (str name) (str description) image true in
          let* _ := broadcast (mkEvent "QUEST_ADDED" (QuestPayload questKey newQuest)) in
          ret (json (QuestBody questKey newQuest))
      end)).

(** DELETE /api/quests/:questKey (deleteQuest) *)
Definition delete_quests (c : Credential) (questKey : string) : Handler Response :=
  authenticateToken c (λ user, requireAdmin user (
    let* r := db_run (Sql.delete_quest questKey) in
    match r with
    | inl _ => ret (status_json 500 (ErrorBody "Database error"))
    | inr this =>
        if bool_decide (changes this = 0)
        then ret (status_json 404 (ErrorBody "Quest not found"))
        else
          let* _ := broadcast (mkEvent "QUEST_DELETED" (QuestKeyPayload questKey)) in
          ret (json (MessageBody "Quest deleted successfully"))
    end)).

(** ** Login and the request dispatcher *)

Section Server.

(** [bcrypt.hash(password, SALT_ROUNDS)] and [bcrypt.compare(password, hash)]
    belong to the credential provider and are taken as given. *)
Variable bcrypt_hash : string → string.
Variable bcrypt_compare : string → string → bool.

(** POST /api/auth/login *)
Definition post_auth_login (name password : option string) : Handler Response :=
  if falsy name || falsy password
  then ret (status_json 400 (ErrorBody "Username and password required"))
  else
    let* user := db_get_user (str name) in
    match user with
    | None =>
        let hashedPassword := bcrypt_hash (str password) in
        let* r := db_run (Sql.insert_user (str name) hashedPassword) in
        match r with
        | inl _ => ret (status_json 500 (ErrorBody "Failed to create user"))
        | inr this =>
            let token := mkClaims (lastID this) (str name) false in
            ret (json (LoginBody token (lastID this) (str name) (Literal false)))
        end
    | Some user =>
        let validPassword := bcrypt_compare (str password) (password_hash user) in
        if negb validPassword
        then ret (status_json 401 (ErrorBody "Invalid password"))
        else
          let token := mkClaims (user_id user) (str name) (is_admin user) in
          ret (json (LoginBody token (user_id user) (str name)
                       (Column (Z.b2z (is_admin user)))))
    end.

(** The mutating routes of the server and the login route. *)
Inductive Request :=
| PostAuthLogin (name password : option string)
| PostItems (c : Credential) (name description imageUrl : option string)
| DeleteItems (c : Credential) (itemKey : string)
| PostInventory (c : Credential) (itemKey : option string) (quantity : option Z)
| DeleteInventory (c : Credential) (itemKey : string) (quantity : option Z)
| PostPartyStorage (c : Credential) (itemKey : option string) (quantity : option Z)
| DeletePartyStorage (c : Credential) (itemKey : string) (quantity : option Z)
| PostQuests (c : Credential) (name description imageUrl : option string)
| DeleteQuests (c : Credential) (questKey : string).

Definition handle (r : Request) : Handler Response :=
  match r with
  | PostAuthLogin name password => post_auth_login name password
  | PostItems c name description imageUrl => post_items c name description imageUrl
  | DeleteItems c itemKey => delete_items c itemKey
  | PostInventory c itemKey quantity => post_inventory c itemKey quantity
  | DeleteInventory c itemKey quantity => delete_inventory c itemKey quantity
  | PostPartyStorage c itemKey quantity => post_party_storage c itemKey quantity
  | DeletePartyStorage c itemKey quantity => delete_party_storage c itemKey quantity
  | PostQuests c name description imageUrl => post_quests c name description imageUrl
  | DeleteQuests c questKey => delete_quests c questKey
  end.

(** The database after each request of a sequence, served one at a time. *)
Fixpoint trace (db : Db) (rs : list Request) : list Db :=
  match rs with
  | [] => []
  | r :: rs' => let db' := db_of (handle r db) in db' :: trace db' rs'
  end.

(** The database after the last request of a sequence. *)
Definition run (db : Db) (rs : list Request) : Db :=
  foldl (λ db r, db_of (handle r db)) db rs.

End Server.

(** The database as the start-up block leaves it: the game master's account
    and the default catalog.  [adminPassword] is the hash of the seeded
    password. *)
Definition initial_db (adminPassword : string) : Db :=
  mkDb
    {[ "gm" := mkUser 1 adminPassword true ]}
    1
    (list_to_map
       [ ("stimpak", mkItem 1 "Stimpak"
            "A medical item used to heal wounds and restore health points."
            "/api/placeholder/200/150");
         ("radaway", mkItem 2 "RadAway"
            "Reduces radiation levels in the body."
            "/api/placeholder/200/150");
         ("nuka-cola", mkItem 3 "Nuka-Cola"
            "The famous pre-war soft drink. Restores some health and provides a small boost."
            "/api/placeholder/200/150");
         ("10mm-pistol", mkItem 4 "10mm Pistol"
            "A reliable sidearm commonly found throughout the wasteland."
            "/api/placeholder/200/150");
         ("leather-armor", mkItem 5 "Leather Armor"
            "Basic protection made from tanned hide. Better than nothing."
            "/api/placeholder/200/150") ])
    5
    ∅
    ∅
    {[ "find-the-vault" := mkQuest 1 "Find the Lost Vault"
         "Rumors speak of a hidden vault containing pre-war technology. Search the wasteland for clues to its location. The vault is said to be marked by a distinctive blue door with the number 111."
         "/api/placeholder/400/200" true ]}
    1.

(** ** Properties of lines *)

(** Every persisted inventory and storage line has a positive quantity. *)
Definition lines_positive (db : Db) : Prop :=
  (∀ a k n, user_inventory db !! (a, k) = Some n → 0 < Sqlite.value n) ∧
  (∀ k n, party_storage db !! k = Some n → 0 < Sqlite.value n).

(** Every line of [db'] is a line of [db] or has a positive quantity. *)
Definition lines_from (db db' : Db) : Prop :=
  (∀ i n, user_inventory db' !! i = Some n →
     user_inventory db !! i = Some n ∨ 0 < Sqlite.value n)
  ∧ (∀ k n, party_storage db' !! k = Some n →
       party_storage db !! k = Some n ∨ 0 < Sqlite.value n).

(** No inventory or storage line refers to [k]. *)
Definition unreferenced (k : string) (db : Db) : Prop :=
  (∀ a, user_inventory db !! (a, k) = None) ∧ party_storage db !! k = None.

(** A normalized key holds no upper-case letter and no
    white space. *)
Definition normalized (key : string) : Prop :=
  Forall (λ c, Slug.is_upper c = false ∧ Slug.is_whitespace c = false)
         (list_ascii_of_string key).

(** The add requests of a sequence carry a positive quantity (an omitted
    one counts as 1). *)
Definition add_quantity_positive (r : Request) : Prop :=
  match r with
  | PostInventory _ _ quantity | PostPartyStorage _ _ quantity => 0 < default 1 quantity
  | _ => True
  end.

(** The type of the broadcast a route sends when it succeeds; the inventory
    routes and the login send none. *)
Definition broadcast_type (r : Request) : option string :=
  match r with
  | PostItems _ _ _ _ => Some "ITEM_ADDED"
  | DeleteItems _ _ => Some "ITEM_DELETED"
  | PostQuests _ _ _ _ => Some "QUEST_ADDED"
  | DeleteQuests _ _ => Some "QUEST_DELETED"
  | PostPartyStorage _ _ _ | DeletePartyStorage _ _ _ => Some "PARTY_STORAGE_UPDATED"
  | PostInventory _ _ _ | DeleteInventory _ _ _ | PostAuthLogin _ _ => None
  end.

(** A response that reports a failure: any status from 400 on. *)
Definition is_failure (r : Response) : Prop := 400 ≤ status r.

(** ** The read routes *)

(** [ORDER BY name]: text is compared byte by byte, which on strings of
    code units below 256 is the order of the code units.  Rows with equal
    names come in an order the engine chooses; the model keeps the one of
    the merge sort. *)
Definition name_le (x y : string) : Prop := String.leb x y = true.

Definition by_name {A} (name : A → string) (x y : A) : Prop :=
  name_le (name x) (name y).

#[global] Instance by_name_dec {A} (name : A → string) : RelDecision (by_name name) :=
  λ x y, decide (String.leb (name x) (name y) = true).

Definition order_by {A} (name : A → string) (rows : list A) : list A :=
  merge_sort (by_name name) rows.

(** A row of the inventory and party storage listings, as the callback of
    [db.all] gets it: the quantity is a JavaScript number. *)
Record LineRow := mkLineRow {
  row_item_key : string;
  row_quantity : Z;
  row_name : string;
  row_description : string;
  row_image_url : string
}.

Module Query.

(** SELECT * FROM items ORDER BY name *)
Definition all_items (db : Db) : list (string * Item) :=
  order_by (λ r, item_name r.2) (map_to_list (items db)).

(** [... JOIN items i ON line.item_key = i.item_key]: the line with the
    columns of its catalog item, when there is one.  The quantity reaches
    JavaScript as a double, also when the column holds an INTEGER. *)
Definition join_item (db : Db) (item_key : string) (quantity : Number) : option LineRow :=
  match items db !! item_key with
  | Some i => Some (mkLineRow item_key (Sqlite.real_value quantity)
                      (item_name i) (item_description i) (item_image_url i))
  | None => None
  end.

(** SELECT ui.item_key, ui.quantity, i.name, i.description, i.image_url
    FROM user_inventory ui JOIN items i ON ui.item_key = i.item_key
    WHERE ui.user_id = ? ORDER BY i.name *)
Definition inventory_of (user : Z) (db : Db) : list LineRow :=
  order_by row_name
    (omap (λ line : (Z * string) * Number,
             if decide (line.1.1 = user)
             then join_item db line.1.2 line.2 else None)
          (map_to_list (user_inventory db))).

(** SELECT ps.item_key, ps.quantity, i.name, i.description, i.image_url
    FROM party_storage ps JOIN items i ON ps.item_key = i.item_key
    ORDER BY i.name *)
Definition storage (db : Db) : list LineRow :=
  order_by row_name
    (omap (λ line : string * Number, join_item db line.1 line.2)
          (map_to_list (party_storage db))).

End Query.

(** What a read route sends: an error response or the rows as a JSON
    array. *)
Inductive Reply (A : Type) :=
| Refused (r : Response)
| Rows (rows : list A).

Arguments Refused {A} r.
Arguments Rows {A} rows.

Definition db_all {A} (query : Db → list A) : Handler (list A) := λ db,
  (query db, db, []).

(** [authenticateToken] in front of a read route. *)
Definition authenticateToken_rows {A} (c : Credential)
    (next : Claims → Handler (Reply A)) : Handler (Reply A) :=
  match c with
  | NoToken => ret (Refused (status_json 401 (ErrorBody "Access token required")))
  | InvalidToken => ret (Refused (status_json 403 (ErrorBody "Invalid token")))
  | ValidToken user => next user
  end.

(** GET /api/items *)
Definition get_items (c : Credential) : Handler (Reply (string * Item)) :=
  authenticateToken_rows c (λ user,
    let* rows := db_all Query.all_items in
    ret (Rows rows)).

(** GET /api/inventory *)
Definition get_inventory (c : Credential) : Handler (Reply LineRow) :=
  authenticateToken_rows c (λ user,
    let* rows := db_all (Query.inventory_of (userId user)) in
    ret (Rows rows)).

(** GET /api/party-storage *)
Definition get_party_storage (c : Credential) : Handler (Reply LineRow) :=
  authenticateToken_rows c (λ user,
    let* rows := db_all Query.storage in
    ret (Rows rows)).

(** ** The sockets of the viewers *)

Module Sockets.

Inductive ReadyState := CONNECTING | OPEN | CLOSING | CLOSED.

(** [clients] is a Set of sockets: insertion order, no socket twice.  A
    socket is named by a number. *)
Definition add (ws : nat) (clients : list nat) : list nat :=
  if decide (ws ∈ clients) then clients else clients ++ [ws].

Definition delete (ws : nat) (clients : list nat) : list nat :=
  filter (λ c, c ≠ ws) clients.

(** The two things that happen to [clients]: [wss.on('connection')] and
    the [ws.on('close')] it registers. *)
Inductive SocketEvent :=
| Connection (ws : nat)
| Close (ws : nat).

Definition on_event (clients : list nat) (e : SocketEvent) : list nat :=
  match e with
  | Connection ws => add ws clients
  | Close ws => delete ws clients
  end.

(** [broadcast(data)]: the [send] calls it makes, given the [readyState] of
    every socket at that moment. *)
Definition broadcast (readyState : nat → ReadyState) (clients : list nat)
    (data : Event) : list (nat * Event) :=
  omap (λ client,
          match readyState client with
          | OPEN => Some (client, data)
          | _ => None
          end) clients.

End Sockets.

(** ** Who a request comes from *)

Definition credential_of (r : Request) : option Credential :=
  match r with
  | PostAuthLogin _ _ => None
  | PostItems c _ _ _ | DeleteItems c _
  | PostInventory c _ _ | DeleteInventory c _ _
  | PostPartyStorage c _ _ | DeletePartyStorage c _ _
  | PostQuests c _ _ _ | DeleteQuests c _ => Some c
  end.

(** The request carries the valid token of an admin. *)
Definition by_admin (r : Request) : Prop :=
  ∃ u, credential_of r = Some (ValidToken u) ∧ isAdmin u = true.

(** The requests that can write the inventory line of account [a] and item
    [k]: an add or remove of [k] with a token of [a], and an admin's delete
    of the catalog item [k]. *)
Definition may_write_line (a : Z) (k : string) (r : Request) : Prop :=
  match r with
  | PostInventory (ValidToken u) (Some k') _ => userId u = a ∧ k' = k
  | DeleteInventory (ValidToken u) k' _ => userId u = a ∧ k' = k
  | DeleteItems (ValidToken u) k' => isAdmin u = true ∧ k' = k
  | _ => False
  end.

(** Row ids: none above its table's counter, none used twice. *)
Definition bounded_by {V} (id : V → Z) (counter : Z) (table : gmap string V) : Prop :=
  ∀ k v, table !! k = Some v → id v ≤ counter.

Definition distinct_by {V} (id : V → Z) (table : gmap string V) : Prop :=
  ∀ k1 k2 v1 v2, table !! k1 = Some v1 → table !! k2 = Some v2 →
    id v1 = id v2 → k1 = k2.

Definition ids_bounded (db : Db) : Prop :=
  bounded_by user_id (seq_users db) (users db)
  ∧ bounded_by item_id (seq_items db) (items db)
  ∧ bounded_by quest_id (seq_quests db) (quests db).

Definition ids_distinct (db : Db) : Prop :=
  distinct_by user_id (users db)
  ∧ distinct_by item_id (items db)
  ∧ distinct_by quest_id (quests db).

(** A POST request whose required body field is absent or empty. *)
Definition missing_field (r : Request) : bool :=
  match r with
  | PostAuthLogin name password => falsy name || falsy password
  | PostItems _ name description _ | PostQuests _ name description _ =>
      falsy name || falsy description
  | PostInventory _ itemKey _ | PostPartyStorage _ itemKey _ => falsy itemKey
  | _ => false
  end.

(** A table of a later database against the counter of an earlier one:
    every row is a row the earlier table held under the same key, or its id
    is above the earlier counter. *)
Definition advance_by {V} (id : V → Z) (counter : Z) (old new : gmap string V) : Prop :=
  ∀ k v, new !! k = Some v → old !! k = Some v ∨ counter < id v.

(** From [db] to [db'] no counter went down and no id at or below a counter
    of [db] was given to a new row. *)
Definition ids_advance (db db' : Db) : Prop :=
  (seq_users db ≤ seq_users db'
   ∧ seq_items db ≤ seq_items db'
   ∧ seq_quests db ≤ seq_quests db')
  ∧ advance_by user_id (seq_users db) (users db) (users db')
  ∧ advance_by item_id (seq_items db) (items db) (items db')
  ∧ advance_by quest_id (seq_quests db) (quests db) (quests db').

(** An id that a row of [old] has is on no other row of [new]: a row of
    [new] with that id is that row, under the same key. *)
Definition not_reused {V} (id : V → Z) (old new : gmap string V) : Prop :=
  ∀ k v k' w, old !! k = Some v → new !! k' = Some w → id v = id w →
    k = k' ∧ v = w.

Definition ids_not_reused (db db' : Db) : Prop :=
  not_reused user_id (users db) (users db')
  ∧ not_reused item_id (items db) (items db')
  ∧ not_reused quest_id (quests db) (quests db').

(** ** What [toLowerCase] and [replace(/\s+/g, '-')] mean

    Read from ECMAScript and not from [Slug]: on code units below 256,
    lower-casing moves the letters A to Z and U+00C0 to U+00DE (without the
    multiplication sign U+00D7) up by 32 and leaves every other code unit;
    the class [\s] holds the code units 9 to 13, 32 and 160; a code unit
    that is no white space stays, and a maximal run of white space becomes
    one dash. *)

Definition lowered (c d : ascii) : Prop :=
  let n := nat_of_ascii c in
  nat_of_ascii d
  = if bool_decide ((65 ≤ n ∧ n ≤ 90) ∨ (192 ≤ n ∧ n ≤ 222 ∧ n ≠ 215))%nat
    then (n + 32)%nat else n.

Definition Lowered (s t : string) : Prop :=
  Forall2 lowered (list_ascii_of_string s) (list_ascii_of_string t).

Definition blank (c : ascii) : bool :=
  bool_decide (nat_of_ascii c ∈ [9; 10; 11; 12; 13; 32; 160]%nat).

Fixpoint all_blank (w : string) : bool :=
  match w with
  | EmptyString => true
  | String c w' => blank c && all_blank w'
  end.

Definition starts_blank (s : string) : bool :=
  match s with
  | EmptyString => false
  | String c _ => blank c
  end.

Inductive Collapsed : string → string → Prop :=
| Collapsed_end : Collapsed "" ""
| Collapsed_unit c s k :
    blank c = false →
    Collapsed s k →
    Collapsed (String c s) (String c k)
| Collapsed_run w s k :
    w ≠ "" → all_blank w = true → starts_blank s = false →
    Collapsed s k →
    Collapsed (w ++ s)%string (String "-" k).

(** * Proofs *)

Ltac unfold_route :=
  unfold post_items, delete_items, post_inventory, delete_inventory,
    post_party_storage, delete_party_storage, post_quests, delete_quests,
    authenticateToken, requireAdmin, bind, ret, db_run, db_get_user, broadcast,
    response_of, db_of, log_of, json, status_json.

Ltac unfold_sql :=
  unfold Sql.insert_user, Sql.insert_item, Sql.delete_item,
    Sql.delete_inventory_of_item, Sql.delete_storage_of_item,
    Sql.upsert_inventory, Sql.decrement_inventory,
    Sql.delete_inventory_nonpositive, Sql.upsert_storage,
    Sql.decrement_storage, Sql.delete_storage_nonpositive,
    Sql.insert_quest, Sql.delete_quest.

Lemma falsy_Some (k : string) : k ≠ "" → falsy (Some k) = false.
Proof. intros Hk. unfold falsy. by rewrite bool_decide_eq_false. Qed.

(** ** Doubles *)

Section Rounding.
Import Sqlite.

Lemma nearest_even_bounds u m :
  0 < u → m / u * u <= nearest_even u m <= (m / u + 1) * u.
Proof.
  intros Hu. unfold nearest_even. repeat case_match; nia.
Qed.

Lemma nearest_even_multiple u q :
  0 < u → nearest_even u (q * u) = q * u.
Proof.
  intros Hu. unfold nearest_even.
  rewrite Z.mod_mul by lia. rewrite Z.div_mul by lia.
  rewrite (proj2 (Z.ltb_lt _ _)) by lia. done.
Qed.

Lemma nearest_even_mono u x y :
  0 < u → x <= y → nearest_even u x <= nearest_even u y.
Proof.
  intros Hu Hxy.
  pose proof (Z.div_le_mono x y u Hu Hxy) as Hq.
  pose proof (Z.div_mod x u ltac:(lia)) as Hx.
  pose proof (Z.div_mod y u ltac:(lia)) as Hy.
  pose proof (Z.mod_pos_bound x u Hu) as Hrx.
  pose proof (Z.mod_pos_bound y u Hu) as Hry.
  destruct (decide (x / u = y / u)) as [Heq|Hne].
  - unfold nearest_even. rewrite <- Heq.
    assert (x mod u <= y mod u) by nia.
    repeat case_match; try lia; nia.
  - pose proof (nearest_even_bounds u x Hu). pose proof (nearest_even_bounds u y Hu).
    nia.
Qed.

Lemma ulp_pos m : 0 < ulp m.
Proof. unfold ulp. case_match; [lia|]. apply Z.pow_pos_nonneg; [lia|].
  apply Z.ltb_ge in H. assert (53 <= Z.log2 m); [|lia].
  apply Z.log2_le_pow2; lia. Qed.


Lemma ulp_small m : m < 2 ^ 53 → ulp m = 1.
Proof. intros H. unfold ulp. by rewrite (proj2 (Z.ltb_lt _ _)). Qed.

Lemma ulp_large m : 2 ^ 53 <= m → ulp m = 2 ^ (Z.log2 m - 52).
Proof. intros H. unfold ulp. by rewrite (proj2 (Z.ltb_ge _ _)). Qed.

Lemma nearest_even_one m : nearest_even 1 m = m.
Proof. rewrite <- (Z.mul_1_r m) at 1. rewrite nearest_even_multiple; lia. Qed.

Lemma round_abs_small m : m < 2 ^ 53 → round_abs m = m.
Proof. intros H. unfold round_abs. rewrite ulp_small by done. apply nearest_even_one. Qed.

Lemma log2_large m : 2 ^ 53 <= m → 53 <= Z.log2 m.
Proof. intros H. apply Z.log2_le_pow2; lia. Qed.

Lemma pow2_split e : 52 <= e → 2 ^ e = 2 ^ 52 * 2 ^ (e - 52).
Proof. intros H. rewrite <- Z.pow_add_r by lia. f_equal. lia. Qed.

(** A large number rounds within its binade, ends included. *)
Lemma round_abs_binade m :
  2 ^ 53 <= m → 2 ^ Z.log2 m <= round_abs m <= 2 ^ (Z.log2 m + 1).
Proof.
  intros H. pose proof (log2_large m H) as He.
  destruct (Z.log2_spec m ltac:(lia)) as [Hlo Hhi].
  unfold round_abs. rewrite ulp_large by done.
  set (e := Z.log2 m) in *. set (u := 2 ^ (e - 52)).
  assert (Hu : 0 < u) by (apply Z.pow_pos_nonneg; lia).
  assert (Hlo' : 2 ^ e = 2 ^ 52 * u) by (by apply pow2_split; lia).
  assert (Hhi' : 2 ^ (Z.succ e) = 2 ^ 53 * u).
  { rewrite Z.pow_succ_r by lia. rewrite Hlo'. lia. }
  replace (e + 1) with (Z.succ e) by lia.
  split.
  - rewrite Hlo'. rewrite <- (nearest_even_multiple u (2 ^ 52)) by done.
    apply nearest_even_mono; lia.
  - rewrite Hhi'. rewrite <- (nearest_even_multiple u (2 ^ 53)) by done.
    apply nearest_even_mono; lia.
Qed.

Lemma round_abs_mono x y : 0 <= x → x <= y → round_abs x <= round_abs y.
Proof.
  intros Hx Hxy.
  destruct (decide (y < 2 ^ 53)) as [Hy|Hy].
  { rewrite !round_abs_small by lia. done. }
  pose proof (round_abs_binade y ltac:(lia)) as [Hylo _].
  assert (2 ^ 53 <= 2 ^ Z.log2 y).
  { apply Z.pow_le_mono_r; [lia|]. apply log2_large. lia. }
  destruct (decide (x < 2 ^ 53)) as [Hx'|Hx'].
  { rewrite (round_abs_small x) by done. lia. }
  pose proof (round_abs_binade x ltac:(lia)) as [_ Hxhi].
  pose proof (Z.log2_le_mono x y Hxy) as Hlog.
  destruct (decide (Z.log2 x = Z.log2 y)) as [Heq|Hne].
  - unfold round_abs. rewrite !ulp_large by lia. rewrite Heq.
    apply nearest_even_mono; [|done]. apply Z.pow_pos_nonneg; [lia|].
    pose proof (log2_large y ltac:(lia)). lia.
  - assert (2 ^ (Z.log2 x + 1) <= 2 ^ Z.log2 y).
    { apply Z.pow_le_mono_r; lia. }
    lia.
Qed.

Lemma round_abs_pos m : 0 < m → 0 < round_abs m.
Proof.
  intros H. destruct (decide (m < 2 ^ 53)).
  - by rewrite round_abs_small.
  - pose proof (round_abs_binade m ltac:(lia)) as [Hlo _].
    assert (0 < 2 ^ Z.log2 m); [|lia]. apply Z.pow_pos_nonneg; [lia|].
    apply Z.log2_nonneg.
Qed.

Lemma to_double_nonneg z : 0 <= z → to_double z = round_abs z.
Proof.
  intros H. unfold to_double, round_abs. rewrite Z.abs_eq by done.
  destruct (decide (z = 0)) as [->|]; [done|].
  rewrite Z.sgn_pos by lia. lia.
Qed.

Lemma to_double_opp z : to_double (- z) = - to_double z.
Proof. unfold to_double. rewrite Z.sgn_opp, Z.abs_opp. lia. Qed.

Lemma to_double_small z : -2 ^ 53 < z < 2 ^ 53 → to_double z = z.
Proof.
  intros H. destruct (decide (0 <= z)).
  - rewrite to_double_nonneg by done. apply round_abs_small. lia.
  - rewrite <- (Z.opp_involutive z) at 1. rewrite to_double_opp.
    rewrite to_double_nonneg by lia. rewrite round_abs_small; lia.
Qed.

Lemma to_double_pos z : 0 < z → 0 < to_double z.
Proof. intros H. rewrite to_double_nonneg by lia. by apply round_abs_pos. Qed.

Lemma to_double_neg z : z <= 0 → to_double z = - round_abs (- z).
Proof.
  intros H. rewrite <- (to_double_nonneg (- z)) by lia.
  rewrite to_double_opp. lia.
Qed.

Lemma to_double_mono x y : x <= y → to_double x <= to_double y.
Proof.
  intros Hxy. destruct (decide (0 <= x)) as [Hx|Hx].
  - rewrite !to_double_nonneg by lia. by apply round_abs_mono.
  - rewrite (to_double_neg x) by lia.
    pose proof (round_abs_pos (- x) ltac:(lia)).
    destruct (decide (0 <= y)) as [Hy|Hy].
    + rewrite (to_double_nonneg y) by lia.
      pose proof (round_abs_mono 0 y ltac:(lia) Hy) as H0.
      rewrite (round_abs_small 0) in H0 by lia. lia.
    + rewrite (to_double_neg y) by lia.
      pose proof (round_abs_mono (- y) (- x) ltac:(lia) ltac:(lia)). lia.
Qed.

End Rounding.

(** ** Sums and differences *)

Lemma value_affinity (x : Number) :
  Sqlite.value (Sqlite.affinity x) = Sqlite.value x.
Proof. destruct x as [i|r]; simpl; [done|]. by case_decide. Qed.

Lemma value_bind (q : Z) : Sqlite.value (Sqlite.bind q) = q.
Proof. unfold Sqlite.bind. by case_decide. Qed.

Lemma bind_int32 (q : Z) : Sqlite.int32 q → Sqlite.bind q = INTEGER q.
Proof. intros Hq. unfold Sqlite.bind. by rewrite decide_True. Qed.

Lemma add_integers (i j : Z) :
  Sqlite.int64 (i + j) →
  Sqlite.affinity (Sqlite.add (INTEGER i) (INTEGER j)) = INTEGER (i + j).
Proof. intros H. simpl. by rewrite decide_True. Qed.

Lemma sub_integers (i j : Z) :
  Sqlite.int64 (i - j) →
  Sqlite.affinity (Sqlite.sub (INTEGER i) (INTEGER j)) = INTEGER (i - j).
Proof. intros H. simpl. by rewrite decide_True. Qed.

(** A sum of two positive quantities is positive, however it is rounded. *)
Lemma add_positive (a b : Number) :
  0 < Sqlite.value a → 0 < Sqlite.value b →
  0 < Sqlite.value (Sqlite.affinity (Sqlite.add a b)).
Proof.
  intros Ha Hb. rewrite value_affinity.
  pose proof (to_double_pos _ Ha). pose proof (to_double_pos _ Hb).
  destruct a as [i|r], b as [j|s];
    unfold Sqlite.add, Sqlite.real_value; cbn [Sqlite.value] in *;
    try case_decide; cbn [Sqlite.value]; try lia; apply to_double_pos; lia.
Qed.

(** A difference that the guard [quantity > ?] lets through is not
    negative; rounding can make it zero. *)
Lemma sub_nonneg (a b : Number) :
  Sqlite.value b < Sqlite.value a →
  0 <= Sqlite.value (Sqlite.affinity (Sqlite.sub a b)).
Proof.
  intros Hab. rewrite value_affinity.
  pose proof (to_double_mono _ _ (Z.lt_le_incl _ _ Hab)) as Hmono.
  assert (Hdiff : ∀ x y, y <= x → 0 <= Sqlite.to_double (x - y)).
  { intros x y Hxy. rewrite <- (to_double_small 0) by lia.
    apply to_double_mono. lia. }
  destruct a as [i|r], b as [j|s];
    unfold Sqlite.sub, Sqlite.real_value; cbn [Sqlite.value] in *;
    try case_decide; cbn [Sqlite.value]; try lia; by apply Hdiff.
Qed.

(** ** The statements on one line *)

Section Statements.

Variables (a : Z) (k : string) (q : Z) (db : Db).

Lemma upsert_inventory_lookup :
  user_inventory (Sql.upsert_inventory a k q q db).2 !! (a, k)
  = Some (Sqlite.affinity
            (from_option (λ n, Sqlite.add n (Sqlite.bind q)) (Sqlite.bind q)
                         (user_inventory db !! (a, k)))).
Proof.
  unfold Sql.upsert_inventory.
  destruct (user_inventory db !! (a, k)); simpl; by rewrite lookup_insert_eq.
Qed.

Lemma upsert_storage_lookup :
  party_storage (Sql.upsert_storage k q q db).2 !! k
  = Some (Sqlite.affinity
            (from_option (λ n, Sqlite.add n (Sqlite.bind q)) (Sqlite.bind q)
                         (party_storage db !! k))).
Proof.
  unfold Sql.upsert_storage.
  destruct (party_storage db !! k); simpl; by rewrite lookup_insert_eq.
Qed.

(** The guarded UPDATE either changes nothing or writes the difference,
    which is not negative. *)
Lemma decrement_inventory_cases :
  (Sql.decrement_inventory q a k q db = (inr (mkRun 0 0), db)
   ∧ ∀ n, user_inventory db !! (a, k) = Some n → Sqlite.value n <= q)
  ∨ (∃ n, user_inventory db !! (a, k) = Some n ∧ Sqlite.value n > q
       ∧ 0 <= Sqlite.value (Sqlite.affinity (Sqlite.sub n (Sqlite.bind q)))
       ∧ Sql.decrement_inventory q a k q db
         = (inr (mkRun 0 1),
            set_user_inventory
              (insert (a, k) (Sqlite.affinity (Sqlite.sub n (Sqlite.bind q)))) db)).
Proof.
  unfold Sql.decrement_inventory. rewrite value_bind.
  destruct (user_inventory db !! (a, k)) as [n|] eqn:Hn.
  - case_bool_decide.
    + right. exists n. repeat split; try done.
      apply sub_nonneg. rewrite value_bind. lia.
    + left. split; [done|]. intros ? [= <-]. lia.
  - left. done.
Qed.

Lemma decrement_storage_cases :
  (Sql.decrement_storage q k q db = (inr (mkRun 0 0), db)
   ∧ ∀ n, party_storage db !! k = Some n → Sqlite.value n <= q)
  ∨ (∃ n, party_storage db !! k = Some n ∧ Sqlite.value n > q
       ∧ 0 <= Sqlite.value (Sqlite.affinity (Sqlite.sub n (Sqlite.bind q)))
       ∧ Sql.decrement_storage q k q db
         = (inr (mkRun 0 1),
            set_party_storage
              (insert k (Sqlite.affinity (Sqlite.sub n (Sqlite.bind q)))) db)).
Proof.
  unfold Sql.decrement_storage. rewrite value_bind.
  destruct (party_storage db !! k) as [n|] eqn:Hn.
  - case_bool_decide.
    + right. exists n. repeat split; try done.
      apply sub_nonneg. rewrite value_bind. lia.
    + left. split; [done|]. intros ? [= <-]. lia.
  - left. done.
Qed.

(** On a line with a positive quantity the cleanup DELETE matches no row. *)
Lemma delete_inventory_nonpositive_skip (n : Number) :
  user_inventory db !! (a, k) = Some n → 0 < Sqlite.value n →
  Sql.delete_inventory_nonpositive a k db = (inr (mkRun 0 0), db).
Proof.
  intros Hn Hpos. unfold Sql.delete_inventory_nonpositive. rewrite Hn.
  by rewrite bool_decide_eq_false_2 by lia.
Qed.

Lemma delete_storage_nonpositive_skip (n : Number) :
  party_storage db !! k = Some n → 0 < Sqlite.value n →
  Sql.delete_storage_nonpositive k db = (inr (mkRun 0 0), db).
Proof.
  intros Hn Hpos. unfold Sql.delete_storage_nonpositive. rewrite Hn.
  by rewrite bool_decide_eq_false_2 by lia.
Qed.

(** On a line with quantity zero or less it deletes the row. *)
Lemma delete_inventory_nonpositive_hit (n : Number) :
  user_inventory db !! (a, k) = Some n → Sqlite.value n <= 0 →
  Sql.delete_inventory_nonpositive a k db
  = (inr (mkRun 0 1), set_user_inventory (delete (a, k)) db).
Proof.
  intros Hn Hpos. unfold Sql.delete_inventory_nonpositive. rewrite Hn.
  by rewrite bool_decide_eq_true_2 by lia.
Qed.

Lemma delete_storage_nonpositive_hit (n : Number) :
  party_storage db !! k = Some n → Sqlite.value n <= 0 →
  Sql.delete_storage_nonpositive k db
  = (inr (mkRun 0 1), set_party_storage (delete k) db).
Proof.
  intros Hn Hpos. unfold Sql.delete_storage_nonpositive. rewrite Hn.
  by rewrite bool_decide_eq_true_2 by lia.
Qed.

End Statements.

(** ** The add and remove routes as one step *)

(** DELETE /api/inventory/:itemKey always answers with the same message.
    It leaves the database as it was, or writes the difference on the line,
    or, when the difference is zero, deletes the line. *)
Lemma delete_inventory_cases (u : Claims) (k : string) (q : option Z) (db : Db) :
  let d := default 1 q in
  let i := (userId u, k) in
  let answer db' :=
    delete_inventory (ValidToken u) k q db
    = (json (MessageBody "Item removed from inventory"), db', []) in
  (answer db ∧ ∀ n, user_inventory db !! i = Some n → Sqlite.value n <= d)
  ∨ ∃ n, user_inventory db !! i = Some n ∧ Sqlite.value n > d
      ∧ let m := Sqlite.affinity (Sqlite.sub n (Sqlite.bind d)) in
        (0 < Sqlite.value m ∧ answer (set_user_inventory (insert i m) db))
        ∨ (Sqlite.value m = 0
           ∧ answer (set_user_inventory (delete i)
                       (set_user_inventory (insert i m) db))).
Proof.
  intros d i answer. subst d i answer. cbv beta. unfold_route.
  destruct (decrement_inventory_cases (userId u) k (default 1 q) db)
    as [[-> Hle]|(n & Hn & Hgt & Hm & ->)]; simpl; [by left|].
  right. exists n. split; [done|]. split; [done|].
  set (m := Sqlite.affinity _) in *.
  destruct (decide (0 < Sqlite.value m)) as [Hpos|Hzero].
  - left. split; [done|].
    rewrite (delete_inventory_nonpositive_skip _ _ _ m); simpl; [done| |done].
    by rewrite lookup_insert_eq.
  - right. split; [lia|].
    rewrite (delete_inventory_nonpositive_hit _ _ _ m); simpl; [done| |lia].
    by rewrite lookup_insert_eq.
Qed.

Lemma delete_party_storage_cases (u : Claims) (k : string) (q : option Z) (db : Db) :
  let d := default 1 q in
  let answer db' :=
    delete_party_storage (ValidToken u) k q db
    = (json (MessageBody "Item removed from party storage"), db',
       [mkEvent "PARTY_STORAGE_UPDATED" NoPayload]) in
  (answer db ∧ ∀ n, party_storage db !! k = Some n → Sqlite.value n <= d)
  ∨ ∃ n, party_storage db !! k = Some n ∧ Sqlite.value n > d
      ∧ let m := Sqlite.affinity (Sqlite.sub n (Sqlite.bind d)) in
        (0 < Sqlite.value m ∧ answer (set_party_storage (insert k m) db))
        ∨ (Sqlite.value m = 0
           ∧ answer (set_party_storage (delete k)
                       (set_party_storage (insert k m) db))).
Proof.
  intros d answer. subst d answer. cbv beta. unfold_route.
  destruct (decrement_storage_cases k (default 1 q) db)
    as [[-> Hle]|(n & Hn & Hgt & Hm & ->)]; simpl; [by left|].
  right. exists n. split; [done|]. split; [done|].
  set (m := Sqlite.affinity _) in *.
  destruct (decide (0 < Sqlite.value m)) as [Hpos|Hzero].
  - left. split; [done|].
    rewrite (delete_storage_nonpositive_skip _ _ m); simpl; [done| |done].
    by rewrite lookup_insert_eq.
  - right. split; [lia|].
    rewrite (delete_storage_nonpositive_hit _ _ m); simpl; [done| |lia].
    by rewrite lookup_insert_eq.
Qed.

Lemma post_inventory_run (u : Claims) (k : string) (q : option Z) (db : Db) :
  k ≠ "" →
  post_inventory (ValidToken u) (Some k) q db
  = (json (MessageBody "Item added to inventory"),
     (Sql.upsert_inventory (userId u) k (default 1 q) (default 1 q) db).2,
     []).
Proof.
  intros Hk. unfold_route. rewrite (falsy_Some k Hk). simpl.
  unfold Sql.upsert_inventory. by destruct (user_inventory db !! _).
Qed.

Lemma post_party_storage_run (u : Claims) (k : string) (q : option Z) (db : Db) :
  k ≠ "" →
  post_party_storage (ValidToken u) (Some k) q db
  = (json (MessageBody "Item added to party storage"),
     (Sql.upsert_storage k (default 1 q) (default 1 q) db).2,
     [mkEvent "PARTY_STORAGE_UPDATED" NoPayload]).
Proof.
  intros Hk. unfold_route. rewrite (falsy_Some k Hk). simpl.
  unfold Sql.upsert_storage. by destruct (party_storage db !! _).
Qed.

(** An add of a 32-bit quantity on an INTEGER line, or on no line. *)
Lemma post_inventory_exact (u : Claims) (k : string) (q : Z) (db : Db) :
  k ≠ "" → Sqlite.int32 q →
  let db' := db_of (post_inventory (ValidToken u) (Some k) (Some q) db) in
  (user_inventory db !! (userId u, k) = None →
     user_inventory db' !! (userId u, k) = Some (INTEGER q))
  ∧ (∀ n, user_inventory db !! (userId u, k) = Some (INTEGER n) →
          Sqlite.int64 (n + q) →
          user_inventory db' !! (userId u, k) = Some (INTEGER (n + q))).
Proof.
  intros Hk Hq db'. subst db'. rewrite post_inventory_run by done.
  unfold db_of. cbn [fst snd]. change (default 1 (Some q)) with q.
  rewrite upsert_inventory_lookup, (bind_int32 q Hq).
  split.
  - by intros ->.
  - intros n -> Hsum. simpl. by rewrite decide_True.
Qed.

Lemma post_party_storage_exact (u : Claims) (k : string) (q : Z) (db : Db) :
  k ≠ "" → Sqlite.int32 q →
  let db' := db_of (post_party_storage (ValidToken u) (Some k) (Some q) db) in
  (party_storage db !! k = None → party_storage db' !! k = Some (INTEGER q))
  ∧ (∀ n, party_storage db !! k = Some (INTEGER n) →
          Sqlite.int64 (n + q) →
          party_storage db' !! k = Some (INTEGER (n + q)))
  ∧ (∀ k', k' ≠ k → party_storage db' !! k' = party_storage db !! k').
Proof.
  intros Hk Hq db'. subst db'. rewrite post_party_storage_run by done.
  unfold db_of. cbn [fst snd]. change (default 1 (Some q)) with q.
  rewrite upsert_storage_lookup, (bind_int32 q Hq).
  split; [by intros ->|]. split.
  - intros n -> Hsum. simpl. by rewrite decide_True.
  - intros k' Hne. unfold Sql.upsert_storage.
    destruct (party_storage db !! k); simpl; by rewrite lookup_insert_ne.
Qed.

(** A remove of a 32-bit quantity that applies to an INTEGER line. *)
Lemma delete_inventory_exact (u : Claims) (k : string) (q : option Z) (n : Z) (db : Db) :
  Sqlite.int32 (default 1 q) →
  user_inventory db !! (userId u, k) = Some (INTEGER n) →
  n > default 1 q → Sqlite.int64 (n - default 1 q) →
  delete_inventory (ValidToken u) k q db
  = (json (MessageBody "Item removed from inventory"),
     set_user_inventory (insert (userId u, k) (INTEGER (n - default 1 q))) db,
     []).
Proof.
  intros Hq Hn Hgt Hdiff.
  destruct (delete_inventory_cases u k q db)
    as [[_ Hle]|(n' & Hn' & _ & Hcases)].
  { specialize (Hle _ Hn). cbn [Sqlite.value] in Hle. lia. }
  rewrite Hn in Hn'. injection Hn' as <-.
  rewrite (bind_int32 _ Hq), sub_integers in Hcases by done.
  cbn [Sqlite.value] in Hcases.
  destruct Hcases as [[_ ->]|[Hzero _]]; [done|lia].
Qed.

Lemma delete_party_storage_exact (u : Claims) (k : string) (q : option Z) (n : Z) (db : Db) :
  Sqlite.int32 (default 1 q) →
  party_storage db !! k = Some (INTEGER n) →
  n > default 1 q → Sqlite.int64 (n - default 1 q) →
  delete_party_storage (ValidToken u) k q db
  = (json (MessageBody "Item removed from party storage"),
     set_party_storage (insert k (INTEGER (n - default 1 q))) db,
     [mkEvent "PARTY_STORAGE_UPDATED" NoPayload]).
Proof.
  intros Hq Hn Hgt Hdiff.
  destruct (delete_party_storage_cases u k q db)
    as [[_ Hle]|(n' & Hn' & _ & Hcases)].
  { specialize (Hle _ Hn). cbn [Sqlite.value] in Hle. lia. }
  rewrite Hn in Hn'. injection Hn' as <-.
  rewrite (bind_int32 _ Hq), sub_integers in Hcases by done.
  cbn [Sqlite.value] in Hcases.
  destruct Hcases as [[_ ->]|[Hzero _]]; [done|lia].
Qed.

Lemma delete_inventory_response (u : Claims) (k : string) (q : option Z) (db : Db) :
  response_of (delete_inventory (ValidToken u) k q db)
  = json (MessageBody "Item removed from inventory")
  ∧ log_of (delete_inventory (ValidToken u) k q db) = [].
Proof.
  destruct (delete_inventory_cases u k q db)
    as [[-> _]|(n & _ & _ & [[_ ->]|[_ ->]])]; done.
Qed.

Lemma delete_party_storage_response (u : Claims) (k : string) (q : option Z) (db : Db) :
  response_of (delete_party_storage (ValidToken u) k q db)
  = json (MessageBody "Item removed from party storage")
  ∧ log_of (delete_party_storage (ValidToken u) k q db)
    = [mkEvent "PARTY_STORAGE_UPDATED" NoPayload].
Proof.
  destruct (delete_party_storage_cases u k q db)
    as [[-> _]|(n & _ & _ & [[_ ->]|[_ ->]])]; done.
Qed.

(** ** Adding to the inventory *)

(** C8 as stated fails: the sum is taken in SQLite's arithmetic, which
    turns to doubles when an operand is not a 32-bit integer.  Adding
    2^53 to a line of 1 leaves 2^53 and not 2^53 + 1. *)
Lemma add_beyond_double_precision_drops_units :
  let c := ValidToken (mkClaims 2 "U" false) in
  let db := db_of (post_inventory c (Some "stimpak") (Some 1) empty_db) in
  let db' := db_of (post_inventory c (Some "stimpak") (Some 9007199254740992) db) in
  user_inventory db !! (2, "stimpak") = Some (INTEGER 1)
  ∧ user_inventory db' !! (2, "stimpak") = Some (INTEGER 9007199254740992)
  ∧ INTEGER 9007199254740992 ≠ INTEGER (1 + 9007199254740992).
Proof. vm_compute. repeat split; congruence. Qed.

(** C8 (as amended).  For a quantity q that is a 32-bit integer,
    addToInventory on an absent (a,k) line creates the line with quantity
    q; on a line holding the integer n, with n + q a 64-bit integer, it
    leaves n + q; and adding 3 and then 2 to an absent line leaves 5. *)
Theorem add_to_inventory_accumulates (u : Claims) (k : string) (q : Z) (db : Db) :
  k ≠ "" → Sqlite.int32 q →
  let add q db := db_of (post_inventory (ValidToken u) (Some k) (Some q) db) in
  let line db := user_inventory db !! (userId u, k) in
  (line db = None → line (add q db) = Some (INTEGER q))
  ∧ (∀ n, line db = Some (INTEGER n) → Sqlite.int64 (n + q) →
          line (add q db) = Some (INTEGER (n + q)))
  ∧ (line db = None → line (add 2 (add 3 db)) = Some (INTEGER 5)).
Proof.
  intros Hk Hq add line.
  destruct (post_inventory_exact u k q db Hk Hq) as [Hnew Hsum].
  split; [done|]. split; [done|]. intros Hnone. subst add line. cbv beta.
  assert (H3 : Sqlite.int32 3) by (unfold Sqlite.int32; lia).
  assert (H2 : Sqlite.int32 2) by (unfold Sqlite.int32; lia).
  destruct (post_inventory_exact u k 3 db Hk H3) as [Hfirst _].
  destruct (post_inventory_exact u k 2
              (db_of (post_inventory (ValidToken u) (Some k) (Some 3) db)) Hk H2)
    as [_ Hsecond].
  apply (Hsecond 3); [by apply Hfirst|]. unfold Sqlite.int64. lia.
Qed.

(** ** Removing from the inventory and from party storage *)

(** C1 (the code at the failing input).  With a (U, stimpak) line of
    quantity 2, removing 2 answers with the success message and leaves the
    line in place with quantity 2. *)
Theorem remove_whole_quantity_keeps_line :
  let c := ValidToken (mkClaims 2 "U" false) in
  let db := db_of (post_inventory c (Some "stimpak") (Some 2) (initial_db "hash")) in
  let out := delete_inventory c "stimpak" (Some 2) db in
  user_inventory db !! (2, "stimpak") = Some (INTEGER 2)
  ∧ response_of out = json (MessageBody "Item removed from inventory")
  ∧ user_inventory (db_of out) !! (2, "stimpak") = Some (INTEGER 2).
Proof. vm_compute. done. Qed.

(** C2 (as amended).  When the (a,k) line is absent or its quantity is less
    than the requested one, removeFromInventory leaves the database as it
    was and broadcasts nothing, and it answers with the ordinary success
    message: no failure is reported. *)
Theorem remove_insufficient_unchanged (u : Claims) (k : string) (q : option Z) (db : Db) :
  (∀ n, user_inventory db !! (userId u, k) = Some n → Sqlite.value n < default 1 q) →
  delete_inventory (ValidToken u) k q db
  = (json (MessageBody "Item removed from inventory"), db, []).
Proof.
  intros Hlt.
  destruct (delete_inventory_cases u k q db)
    as [[-> _]|(n & Hn & Hgt & _)]; [done|].
  specialize (Hlt n Hn). lia.
Qed.

(** C2 as stated fails: a remove of 5 from a line of 1 is answered with
    status 200 and the success message. *)
Lemma remove_insufficient_reports_success :
  let c := ValidToken (mkClaims 2 "U" false) in
  let db := db_of (post_inventory c (Some "stimpak") (Some 1) empty_db) in
  let out := delete_inventory c "stimpak" (Some 5) db in
  user_inventory db !! (2, "stimpak") = Some (INTEGER 1)
  ∧ response_of out = json (MessageBody "Item removed from inventory")
  ∧ ¬ is_failure (response_of out).
Proof.
  vm_compute. split; [done|]. split; [done|]. intros H. by apply H.
Qed.

(** The guarded UPDATE changes a row only under the strict guard. *)
Lemma decrement_inventory_strict (a : Z) (k : string) (d : Z) (db : Db) this :
  (Sql.decrement_inventory d a k d db).1 = inr this → changes this > 0 →
  ∃ m, user_inventory db !! (a, k) = Some m ∧ Sqlite.value m > d.
Proof.
  destruct (decrement_inventory_cases a k d db)
    as [[-> _]|(m & Hm & Hgt & _)]; [|by eauto].
  intros [= <-]. simpl. lia.
Qed.

Lemma decrement_storage_strict (k : string) (d : Z) (db : Db) this :
  (Sql.decrement_storage d k d db).1 = inr this → changes this > 0 →
  ∃ m, party_storage db !! k = Some m ∧ Sqlite.value m > d.
Proof.
  destruct (decrement_storage_cases k d db)
    as [[-> _]|(m & Hm & Hgt & _)]; [|by eauto].
  intros [= <-]. simpl. lia.
Qed.

(** Within integer arithmetic the UPDATE leaves the exact difference. *)
Lemma decrement_inventory_exact (a : Z) (k : string) (d n : Z) (db : Db) :
  Sqlite.int32 d → n > d → Sqlite.int64 (n - d) →
  user_inventory db !! (a, k) = Some (INTEGER n) →
  Sql.decrement_inventory d a k d db
  = (inr (mkRun 0 1), set_user_inventory (insert (a, k) (INTEGER (n - d))) db).
Proof.
  intros Hd Hgt Hdiff Hn. unfold Sql.decrement_inventory.
  rewrite Hn, value_bind. cbn [Sqlite.value].
  rewrite bool_decide_eq_true_2 by done.
  by rewrite (bind_int32 d Hd), sub_integers.
Qed.

Lemma decrement_storage_exact (k : string) (d n : Z) (db : Db) :
  Sqlite.int32 d → n > d → Sqlite.int64 (n - d) →
  party_storage db !! k = Some (INTEGER n) →
  Sql.decrement_storage d k d db
  = (inr (mkRun 0 1), set_party_storage (insert k (INTEGER (n - d))) db).
Proof.
  intros Hd Hgt Hdiff Hn. unfold Sql.decrement_storage.
  rewrite Hn, value_bind. cbn [Sqlite.value].
  rewrite bool_decide_eq_true_2 by done.
  by rewrite (bind_int32 d Hd), sub_integers.
Qed.

(** Within integer arithmetic a remove route keeps every line of its
    table. *)
Lemma delete_inventory_keeps_lines (u : Claims) (k : string) (q : option Z) (db : Db) i :
  Sqlite.int32 (default 1 q) →
  (∀ m, user_inventory db !! (userId u, k) = Some m →
        ∃ n, m = INTEGER n ∧ Sqlite.int64 (n - default 1 q)) →
  is_Some (user_inventory db !! i) →
  is_Some (user_inventory (db_of (delete_inventory (ValidToken u) k q db)) !! i).
Proof.
  intros Hq Hline Hi.
  destruct (delete_inventory_cases u k q db)
    as [[-> _]|(m & Hm & Hgt & _)]; [done|].
  destruct (Hline m Hm) as (n & -> & Hdiff). cbn [Sqlite.value] in Hgt.
  rewrite (delete_inventory_exact u k q n db) by done.
  unfold db_of. cbn [fst snd]. simpl.
  destruct (decide ((userId u, k) = i)) as [<-|Hne].
  - rewrite lookup_insert_eq. by eexists.
  - by rewrite lookup_insert_ne.
Qed.

Lemma delete_party_storage_keeps_lines (u : Claims) (k : string) (q : option Z) (db : Db) i :
  Sqlite.int32 (default 1 q) →
  (∀ m, party_storage db !! k = Some m →
        ∃ n, m = INTEGER n ∧ Sqlite.int64 (n - default 1 q)) →
  is_Some (party_storage db !! i) →
  is_Some (party_storage (db_of (delete_party_storage (ValidToken u) k q db)) !! i).
Proof.
  intros Hq Hline Hi.
  destruct (delete_party_storage_cases u k q db)
    as [[-> _]|(m & Hm & Hgt & _)]; [done|].
  destruct (Hline m Hm) as (n & -> & Hdiff). cbn [Sqlite.value] in Hgt.
  rewrite (delete_party_storage_exact u k q n db) by done.
  unfold db_of. cbn [fst snd]. simpl.
  destruct (decide (k = i)) as [<-|Hne].
  - rewrite lookup_insert_eq. by eexists.
  - by rewrite lookup_insert_ne.
Qed.

(** C9 as stated fails: the difference is taken in SQLite's arithmetic.
    A line of 2^53 + 1 passes the guard [quantity > ?] for a remove of
    2^53, the difference of the two doubles is 0, and the follow-up DELETE
    removes the line. *)
Lemma remove_rounded_to_zero_deletes_line :
  let c := ValidToken (mkClaims 2 "U" false) in
  let db1 := db_of (post_inventory c (Some "stimpak") (Some 9007199254740992) empty_db) in
  let db := db_of (post_inventory c (Some "stimpak") (Some 1) db1) in
  let out := delete_inventory c "stimpak" (Some 9007199254740992) db in
  user_inventory db !! (2, "stimpak") = Some (INTEGER 9007199254740993)
  ∧ (∃ this,
       (Sql.decrement_inventory 9007199254740992 2 "stimpak" 9007199254740992 db).1
       = inr this ∧ changes this > 0)
  ∧ user_inventory (db_of out) !! (2, "stimpak") = None.
Proof.
  split; [by vm_compute|]. split; [|by vm_compute].
  exists (mkRun 0 1). split; [by vm_compute|]. simpl. lia.
Qed.

(** C9 (as amended).  In removeFromInventory and removeFromStorage the
    UPDATE changes a row only when the current quantity is strictly greater
    than the requested one.  When the requested quantity d is a 32-bit
    integer and the line holds an integer n > d with n - d a 64-bit
    integer, the row keeps n - d, which is at least 1, and the follow-up
    DELETE of rows with quantity <= 0 matches no row.  When the requested
    quantity is a 32-bit integer and the addressed line, if present, holds
    such an integer, the remove request deletes no line. *)
Theorem remove_is_strict_and_never_deletes
    (u : Claims) (k : string) (q : option Z) (n : Z) (db : Db) :
  let d := default 1 q in
  let inv := Sql.decrement_inventory d (userId u) k d db in
  let sto := Sql.decrement_storage d k d db in
  ((∀ this, inv.1 = inr this → changes this > 0 →
      ∃ m, user_inventory db !! (userId u, k) = Some m ∧ Sqlite.value m > d)
   ∧ (∀ this, sto.1 = inr this → changes this > 0 →
      ∃ m, party_storage db !! k = Some m ∧ Sqlite.value m > d))
  ∧ (Sqlite.int32 d → n > d → Sqlite.int64 (n - d) →
     (user_inventory db !! (userId u, k) = Some (INTEGER n) →
        user_inventory inv.2 !! (userId u, k) = Some (INTEGER (n - d))
        ∧ n - d >= 1
        ∧ Sql.delete_inventory_nonpositive (userId u) k inv.2
          = (inr (mkRun 0 0), inv.2))
     ∧ (party_storage db !! k = Some (INTEGER n) →
        party_storage sto.2 !! k = Some (INTEGER (n - d))
        ∧ n - d >= 1
        ∧ Sql.delete_storage_nonpositive k sto.2 = (inr (mkRun 0 0), sto.2)))
  ∧ (Sqlite.int32 d →
     ((∀ m, user_inventory db !! (userId u, k) = Some m →
            ∃ n, m = INTEGER n ∧ Sqlite.int64 (n - d)) →
      ∀ i, is_Some (user_inventory db !! i) →
           is_Some (user_inventory
                      (db_of (delete_inventory (ValidToken u) k q db)) !! i))
     ∧ ((∀ m, party_storage db !! k = Some m →
              ∃ n, m = INTEGER n ∧ Sqlite.int64 (n - d)) →
        ∀ i, is_Some (party_storage db !! i) →
             is_Some (party_storage
                        (db_of (delete_party_storage (ValidToken u) k q db)) !! i))).
Proof.
  intros d inv sto. split; [|split].
  - split; intros this.
    + apply decrement_inventory_strict.
    + apply decrement_storage_strict.
  - intros Hd Hgt Hdiff. split; intros Hn.
    + subst inv. rewrite (decrement_inventory_exact _ _ _ n) by done.
      cbn [fst snd]. split; [|split; [lia|]].
      * simpl. by rewrite lookup_insert_eq.
      * apply (delete_inventory_nonpositive_skip _ _ _ (INTEGER (n - d))).
        -- simpl. by rewrite lookup_insert_eq.
        -- simpl. lia.
    + subst sto. rewrite (decrement_storage_exact _ _ n) by done.
      cbn [fst snd]. split; [|split; [lia|]].
      * simpl. by rewrite lookup_insert_eq.
      * apply (delete_storage_nonpositive_skip _ _ (INTEGER (n - d))).
        -- simpl. by rewrite lookup_insert_eq.
        -- simpl. lia.
  - intros Hd. split; intros Hline i Hi.
    + by apply delete_inventory_keeps_lines.
    + by apply delete_party_storage_keeps_lines.
Qed.

(** ** Quantity arguments *)

(** C4 (as amended).  In the four quantity operations an omitted quantity
    is 1.  A supplied quantity is not validated: for a 32-bit integer q
    that is zero or negative, each of the four requests is answered with
    the success message; an add creates an absent line with quantity q and
    turns a line holding the integer n into n + q; a remove turns a line
    holding an integer n > q into n - q (the sums and differences being
    64-bit integers). *)
Theorem quantity_defaults_to_one_and_is_not_validated
    (c : Credential) (u : Claims) (ko : option string) (k : string) (q n : Z) (db : Db) :
  k ≠ "" → q <= 0 → Sqlite.int32 q →
  let inventory db := user_inventory db !! (userId u, k) in
  let storage db := party_storage db !! k in
  let add_i := post_inventory (ValidToken u) (Some k) (Some q) db in
  let add_s := post_party_storage (ValidToken u) (Some k) (Some q) db in
  let remove_i := delete_inventory (ValidToken u) k (Some q) db in
  let remove_s := delete_party_storage (ValidToken u) k (Some q) db in
  (post_inventory c ko None db = post_inventory c ko (Some 1) db
   ∧ delete_inventory c k None db = delete_inventory c k (Some 1) db
   ∧ post_party_storage c ko None db = post_party_storage c ko (Some 1) db
   ∧ delete_party_storage c k None db = delete_party_storage c k (Some 1) db)
  ∧ (response_of add_i = json (MessageBody "Item added to inventory")
     ∧ (inventory db = None → inventory (db_of add_i) = Some (INTEGER q))
     ∧ (inventory db = Some (INTEGER n) → Sqlite.int64 (n + q) →
        inventory (db_of add_i) = Some (INTEGER (n + q))))
  ∧ (response_of add_s = json (MessageBody "Item added to party storage")
     ∧ (storage db = None → storage (db_of add_s) = Some (INTEGER q))
     ∧ (storage db = Some (INTEGER n) → Sqlite.int64 (n + q) →
        storage (db_of add_s) = Some (INTEGER (n + q))))
  ∧ (response_of remove_i = json (MessageBody "Item removed from inventory")
     ∧ (inventory db = Some (INTEGER n) → n > q → Sqlite.int64 (n - q) →
        inventory (db_of remove_i) = Some (INTEGER (n - q))))
  ∧ (response_of remove_s = json (MessageBody "Item removed from party storage")
     ∧ (storage db = Some (INTEGER n) → n > q → Sqlite.int64 (n - q) →
        storage (db_of remove_s) = Some (INTEGER (n - q)))).
Proof.
  intros Hk Hneg Hq inventory storage add_i add_s remove_i remove_s.
  split; [done|]. split; [|split; [|split]].
  - destruct (post_inventory_exact u k q db Hk Hq) as [Hnew Hsum].
    split; [|by eauto]. subst add_i. by rewrite post_inventory_run.
  - destruct (post_party_storage_exact u k q db Hk Hq) as (Hnew & Hsum & _).
    split; [|by eauto]. subst add_s. by rewrite post_party_storage_run.
  - split; [apply delete_inventory_response|]. intros Hn Hgt Hdiff.
    subst remove_i inventory. cbv beta.
    rewrite (delete_inventory_exact u k (Some q) n db) by done.
    unfold db_of. simpl. by rewrite lookup_insert_eq.
  - split; [apply delete_party_storage_response|]. intros Hn Hgt Hdiff.
    subst remove_s storage. cbv beta.
    rewrite (delete_party_storage_exact u k (Some q) n db) by done.
    unfold db_of. simpl. by rewrite lookup_insert_eq.
Qed.

(** C4 as stated fails: adding -1 is answered with status 200 and persists
    a line. *)
Lemma negative_quantity_is_accepted :
  let c := ValidToken (mkClaims 2 "U" false) in
  let out := post_inventory c (Some "stimpak") (Some (-1)) empty_db in
  ¬ is_failure (response_of out)
  ∧ user_inventory (db_of out) !! (2, "stimpak") = Some (INTEGER (-1))
  ∧ user_inventory empty_db !! (2, "stimpak") = None.
Proof.
  vm_compute. split; [|done]. intros H. by apply H.
Qed.

(** ** Positive quantities *)

Lemma lines_from_same (db db' : Db) :
  user_inventory db' = user_inventory db →
  party_storage db' = party_storage db →
  lines_from db db'.
Proof. intros Hi Hs. split; intros ? ?; rewrite ?Hi, ?Hs; auto. Qed.

Lemma lines_from_positive (db db' : Db) :
  lines_from db db' → lines_positive db → lines_positive db'.
Proof.
  intros [Hi Hs] [Pi Ps]. split.
  - intros a k n Hn. destruct (Hi _ _ Hn); eauto.
  - intros k n Hn. destruct (Hs _ _ Hn); eauto.
Qed.

Lemma lines_positive_empty : lines_positive empty_db.
Proof. split; intros; simplify_map_eq. Qed.

Lemma upserted_positive (line : option Number) (q : Z) :
  0 < q → (∀ n, line = Some n → 0 < Sqlite.value n) →
  0 < Sqlite.value
        (Sqlite.affinity
           (from_option (λ n, Sqlite.add n (Sqlite.bind q)) (Sqlite.bind q) line)).
Proof.
  intros Hq Hline. destruct line as [n|]; simpl.
  - apply add_positive; [by apply Hline|]. by rewrite value_bind.
  - by rewrite value_affinity, value_bind.
Qed.

Lemma upsert_inventory_lines_from a k q db :
  0 < q → lines_positive db → lines_from db (Sql.upsert_inventory a k q q db).2.
Proof.
  intros Hq [Pi _].
  pose proof (upsert_inventory_lookup a k q db) as Hnew.
  pose proof (upserted_positive (user_inventory db !! (a, k)) q Hq
                (λ n, Pi a k n)) as Hpos.
  split.
  - intros i m Hm. destruct (decide ((a, k) = i)) as [<-|Hne].
    + right. rewrite Hnew in Hm. by injection Hm as <-.
    + left. revert Hm. unfold Sql.upsert_inventory.
      destruct (user_inventory db !! (a, k)); simpl;
        by rewrite lookup_insert_ne.
  - intros i m Hm. left. revert Hm. unfold Sql.upsert_inventory.
    by destruct (user_inventory db !! (a, k)).
Qed.

Lemma upsert_storage_lines_from k q db :
  0 < q → lines_positive db → lines_from db (Sql.upsert_storage k q q db).2.
Proof.
  intros Hq [_ Ps].
  pose proof (upsert_storage_lookup k q db) as Hnew.
  pose proof (upserted_positive (party_storage db !! k) q Hq
                (λ n, Ps k n)) as Hpos.
  split.
  - intros i m Hm. left. revert Hm. unfold Sql.upsert_storage.
    by destruct (party_storage db !! k).
  - intros i m Hm. destruct (decide (k = i)) as [<-|Hne].
    + right. rewrite Hnew in Hm. by injection Hm as <-.
    + left. revert Hm. unfold Sql.upsert_storage.
      destruct (party_storage db !! k); simpl;
        by rewrite lookup_insert_ne.
Qed.

Lemma delete_items_lines_from c k db :
  lines_from db (db_of (delete_items c k db)).
Proof.
  destruct c as [| |u]; [by apply lines_from_same..|].
  unfold_route. destruct (isAdmin u); [|by apply lines_from_same].
  unfold Sql.delete_item.
  destruct (items db !! k) as [it|]; simpl; [|by apply lines_from_same].
  unfold Sql.delete_storage_of_item. simpl.
  destruct (party_storage db !! k) as [m|]; simpl.
  - split; simpl.
    + intros i n [Hn _]%map_lookup_filter_Some. by left.
    + intros i n [_ Hn]%lookup_delete_Some. by left.
  - split; simpl.
    + intros i n [Hn _]%map_lookup_filter_Some. by left.
    + intros i n Hn. by left.
Qed.

Ltac same_lines :=
  unfold_route; unfold_sql; simpl;
  repeat (case_match; simpl; simplify_eq);
  by apply lines_from_same.

Lemma post_items_lines_from c name description imageUrl db :
  lines_from db (db_of (post_items c name description imageUrl db)).
Proof. same_lines. Qed.

Lemma post_quests_lines_from c name description imageUrl db :
  lines_from db (db_of (post_quests c name description imageUrl db)).
Proof. same_lines. Qed.

Lemma delete_quests_lines_from c k db :
  lines_from db (db_of (delete_quests c k db)).
Proof. same_lines. Qed.

Lemma post_inventory_lines_from c k q db :
  0 < default 1 q → lines_positive db →
  lines_from db (db_of (post_inventory c k q db)).
Proof.
  intros Hq Hpos. destruct c as [| |u]; [by apply lines_from_same..|].
  destruct k as [k|]; [|by apply lines_from_same].
  destruct (decide (k = "")) as [->|Hk]; [by apply lines_from_same|].
  rewrite post_inventory_run by done. by apply upsert_inventory_lines_from.
Qed.

Lemma post_party_storage_lines_from c k q db :
  0 < default 1 q → lines_positive db →
  lines_from db (db_of (post_party_storage c k q db)).
Proof.
  intros Hq Hpos. destruct c as [| |u]; [by apply lines_from_same..|].
  destruct k as [k|]; [|by apply lines_from_same].
  destruct (decide (k = "")) as [->|Hk]; [by apply lines_from_same|].
  rewrite post_party_storage_run by done. by apply upsert_storage_lines_from.
Qed.

(** A remove writes a positive difference or, when the difference is
    zero, deletes the line. *)
Lemma delete_inventory_lines_from c k q db :
  lines_from db (db_of (delete_inventory c k q db)).
Proof.
  destruct c as [| |u]; [by apply lines_from_same..|].
  destruct (delete_inventory_cases u k q db)
    as [[-> _]|(n & _ & _ & [[Hpos ->]|[_ ->]])];
    [by apply lines_from_same| |]; unfold db_of; cbn [fst snd];
    (split; [|by left]); intros i m; simpl.
  - destruct (decide ((userId u, k) = i)) as [<-|Hne].
    + rewrite lookup_insert_eq. intros [= <-]. by right.
    + rewrite lookup_insert_ne by done. by left.
  - intros [Hne Hm]%lookup_delete_Some.
    rewrite lookup_insert_ne in Hm by done. by left.
Qed.

Lemma delete_party_storage_lines_from c k q db :
  lines_from db (db_of (delete_party_storage c k q db)).
Proof.
  destruct c as [| |u]; [by apply lines_from_same..|].
  destruct (delete_party_storage_cases u k q db)
    as [[-> _]|(n & _ & _ & [[Hpos ->]|[_ ->]])];
    [by apply lines_from_same| |]; unfold db_of; cbn [fst snd];
    (split; [by left|]); intros i m; simpl.
  - destruct (decide (k = i)) as [<-|Hne].
    + rewrite lookup_insert_eq. intros [= <-]. by right.
    + rewrite lookup_insert_ne by done. by left.
  - intros [Hne Hm]%lookup_delete_Some.
    rewrite lookup_insert_ne in Hm by done. by left.
Qed.

Section Sequences.

Variable bcrypt_hash : string → string.
Variable bcrypt_compare : string → string → bool.

Local Abbreviation handle := (handle bcrypt_hash bcrypt_compare).
Local Abbreviation trace := (trace bcrypt_hash bcrypt_compare).

Lemma post_auth_login_lines_from name password db :
  lines_from db (db_of (post_auth_login bcrypt_hash bcrypt_compare name password db)).
Proof. unfold post_auth_login. same_lines. Qed.

Lemma handle_lines_positive r db :
  add_quantity_positive r → lines_positive db →
  lines_positive (db_of (handle r db)).
Proof.
  intros Hr Hpos. apply (lines_from_positive db); [|done].
  destruct r; simpl in *;
    auto using post_auth_login_lines_from, post_items_lines_from,
      delete_items_lines_from, post_inventory_lines_from,
      delete_inventory_lines_from, post_party_storage_lines_from,
      delete_party_storage_lines_from, post_quests_lines_from,
      delete_quests_lines_from.
Qed.

Lemma trace_lines_positive rs : ∀ db,
  Forall add_quantity_positive rs → lines_positive db →
  Forall lines_positive (trace db rs).
Proof.
  induction rs as [|r rs IH]; intros db Hrs Hpos; simpl; [constructor|].
  inversion_clear Hrs as [|? ? Hr Hrs'].
  pose proof (handle_lines_positive r db Hr Hpos) as Hpos'.
  constructor; [done|]. by apply IH.
Qed.

(** C3 (as amended).  For every finite sequence of requests applied to an
    initially empty store in which every addToInventory and addToStorage
    carries a positive quantity (remove quantities are arbitrary), every
    inventory and storage line persisted at every point has a quantity
    greater than 0. *)
Theorem lines_stay_positive (rs : list Request) :
  Forall add_quantity_positive rs →
  Forall lines_positive (trace empty_db rs).
Proof.
  intros Hrs. apply trace_lines_positive; [done|]. apply lines_positive_empty.
Qed.

End Sequences.

(** C3 as stated fails: addToInventory with quantity 0 on the empty store
    persists a line of quantity 0. *)
Lemma add_zero_persists_zero_line :
  let c := ValidToken (mkClaims 2 "U" false) in
  let db := db_of (post_inventory c (Some "stimpak") (Some 0) empty_db) in
  user_inventory db !! (2, "stimpak") = Some (INTEGER 0) ∧ ¬ lines_positive db.
Proof.
  split; [by vm_compute|].
  intros [Hi _]. specialize (Hi 2 "stimpak" (INTEGER 0)). simpl in Hi.
  assert (0 < 0) by (apply Hi; by vm_compute). lia.
Qed.

(** ** Catalog *)

Lemma derive_key_nonempty (name : string) :
  name ≠ "" → Slug.derive_key name ≠ "".
Proof.
  destruct name as [|ch rest]; [done|]. intros _.
  unfold Slug.derive_key. simpl. by destruct (Slug.is_whitespace _).
Qed.

Lemma delete_items_run (u : Claims) (k : string) (db : Db) :
  isAdmin u = true → is_Some (items db !! k) →
  delete_items (ValidToken u) k db
  = (json (MessageBody "Item deleted successfully"),
     (Sql.delete_storage_of_item k
        (Sql.delete_inventory_of_item k (Sql.delete_item k db).2).2).2,
     [mkEvent "ITEM_DELETED" (ItemKeyPayload k)]).
Proof.
  intros Hadm [it Hit]. unfold_route. rewrite Hadm.
  unfold Sql.delete_item. rewrite Hit. simpl.
  unfold Sql.delete_storage_of_item. simpl.
  by destruct (party_storage db !! k).
Qed.

(** What the three DELETE statements of deleteItem leave behind. *)
Lemma cascade_lookups (k : string) (db : Db) :
  let db' := (Sql.delete_storage_of_item k
                (Sql.delete_inventory_of_item k (Sql.delete_item k db).2).2).2 in
  (∀ k', items db' !! k' = if decide (k' = k) then None else items db !! k')
  ∧ (∀ k', party_storage db' !! k'
           = if decide (k' = k) then None else party_storage db !! k')
  ∧ (∀ a k', user_inventory db' !! (a, k')
             = if decide (k' = k) then None else user_inventory db !! (a, k')).
Proof.
  unfold Sql.delete_storage_of_item, Sql.delete_inventory_of_item, Sql.delete_item.
  destruct (items db !! k) as [it|] eqn:Hit;
    destruct (party_storage db !! k) as [m|] eqn:Hm; simpl; rewrite ?Hm; simpl;
    (split; [|split]).
  all: try (intros k'; rewrite ?lookup_delete; repeat case_decide; by simplify_eq).
  all: intros a k'; rewrite map_lookup_filter;
    destruct (user_inventory db !! (a, k')) as [n|]; simpl;
    rewrite ?option_guard_decide; by repeat case_decide.
Qed.

(** C5.  deleteItem answers NotFound (404) and changes nothing when the
    catalog has no item k; otherwise it deletes the item and every inventory
    line of every account and every storage line with key k, so that no
    line refers to k afterwards. *)
Theorem delete_item_cascades (u : Claims) (k : string) (db : Db) :
  isAdmin u = true →
  let out := delete_items (ValidToken u) k db in
  (items db !! k = None →
     out = (status_json 404 (ErrorBody "Item not found"), db, []))
  ∧ (is_Some (items db !! k) →
     response_of out = json (MessageBody "Item deleted successfully")
     ∧ items (db_of out) !! k = None
     ∧ unreferenced k (db_of out)
     ∧ (∀ k', k' ≠ k →
          items (db_of out) !! k' = items db !! k'
          ∧ party_storage (db_of out) !! k' = party_storage db !! k'
          ∧ ∀ a, user_inventory (db_of out) !! (a, k') = user_inventory db !! (a, k'))).
Proof.
  intros Hadm out. split.
  - intros Hnone. subst out. unfold_route. rewrite Hadm.
    unfold Sql.delete_item. by rewrite Hnone.
  - intros Hsome. subst out. rewrite delete_items_run by done.
    unfold response_of, db_of. simpl.
    destruct (cascade_lookups k db) as (Hitems & Hsto & Hinv).
    split; [done|]. split; [|split; [split|]].
    + rewrite Hitems. by case_decide.
    + intros a. rewrite Hinv. by case_decide.
    + rewrite Hsto. by case_decide.
    + intros k' Hne. rewrite Hitems, Hsto. repeat split; try by case_decide.
      intros a. rewrite Hinv. by case_decide.
Qed.

Section CreateItem.

Variables (u : Claims) (n : string) (d i : option string) (db : Db).
Hypothesis admin : isAdmin u = true.
Hypothesis named : n ≠ "".
Hypothesis described : falsy d = false.

Lemma post_items_fresh :
  items db !! Slug.derive_key n = None →
  let it := mkItem (seq_items db + 1) n (str d)
              (if falsy i then "/api/placeholder/200/150" else str i) in
  post_items (ValidToken u) (Some n) d i db
  = (json (ItemBody (Slug.derive_key n) it),
     set_items (insert (Slug.derive_key n) it) (seq_items db + 1) db,
     [mkEvent "ITEM_ADDED" (ItemPayload (Slug.derive_key n) it)]).
Proof.
  intros Hfree. unfold_route. rewrite admin, (falsy_Some n named), described.
  simpl. unfold Sql.insert_item. by rewrite Hfree.
Qed.

Lemma post_items_conflict :
  is_Some (items db !! Slug.derive_key n) →
  post_items (ValidToken u) (Some n) d i db
  = (status_json 400 (ErrorBody "Item already exists"), db, []).
Proof.
  intros [it Hit]. unfold_route. rewrite admin, (falsy_Some n named), described.
  simpl. unfold Sql.insert_item. by rewrite Hit.
Qed.

End CreateItem.

Example derive_key_stim_pak : Slug.derive_key "Stim Pak" = "stim-pak".
Proof. reflexivity. Qed.

Example derive_key_stim_run : Slug.derive_key "stim   pak" = "stim-pak".
Proof. reflexivity. Qed.

Example derive_key_edges : Slug.derive_key " 10mm  Pistol " = "-10mm-pistol-".
Proof. reflexivity. Qed.

Lemma lower_char_not_upper (c : ascii) : Slug.is_upper (Slug.lower_char c) = false.
Proof. by destruct c as [[] [] [] [] [] [] [] []]. Qed.

Lemma replace_runs_normalized (s : string) : ∀ in_run,
  Forall (λ c, Slug.is_upper c = false) (list_ascii_of_string s) →
  normalized (Slug.replace_runs in_run s).
Proof.
  unfold normalized.
  induction s as [|c s IH]; intros in_run Hs; simpl; [constructor|].
  inversion_clear Hs as [|? ? Hc Hs'].
  destruct (Slug.is_whitespace c) eqn:Hw; [destruct in_run|]; simpl.
  - by apply IH.
  - constructor; [done|]. by apply IH.
  - constructor; [done|]. by apply IH.
Qed.

Lemma derive_key_normalized (name : string) : normalized (Slug.derive_key name).
Proof.
  apply replace_runs_normalized.
  induction name as [|c s IH]; simpl; constructor; [|done].
  apply lower_char_not_upper.
Qed.

(** *** The derivation against what the two library calls mean *)

Lemma lower_char_lowered (c : ascii) : lowered c (Slug.lower_char c).
Proof. destruct c as [[] [] [] [] [] [] [] []]; by vm_compute. Qed.

Lemma is_whitespace_blank (c : ascii) : Slug.is_whitespace c = blank c.
Proof. destruct c as [[] [] [] [] [] [] [] []]; by vm_compute. Qed.

Lemma lowered_functional (c d1 d2 : ascii) : lowered c d1 → lowered c d2 → d1 = d2.
Proof.
  unfold lowered. intros H1 H2.
  rewrite <- (ascii_nat_embedding d1), <- (ascii_nat_embedding d2). congruence.
Qed.

Lemma toLowerCase_Lowered (s : string) : Lowered s (Slug.toLowerCase s).
Proof.
  unfold Lowered. induction s as [|c s IH]; simpl; constructor; [|done].
  apply lower_char_lowered.
Qed.

Lemma Lowered_toLowerCase (s t : string) : Lowered s t → t = Slug.toLowerCase s.
Proof.
  unfold Lowered. revert t.
  induction s as [|c s IH]; intros [|d t] H; simpl in H; inversion H; subst; [done|].
  simpl. f_equal; [|by apply IH].
  by apply (lowered_functional c), lower_char_lowered.
Qed.

Lemma append_nil (s : string) : ("" ++ s)%string = s.
Proof. reflexivity. Qed.

Lemma append_cons (b : ascii) (w s : string) :
  (String b w ++ s)%string = String b (w ++ s).
Proof. reflexivity. Qed.

Lemma append_unit_assoc (w : string) (c : ascii) (s : string) :
  ((w ++ String c "") ++ s)%string = (w ++ String c s)%string.
Proof.
  induction w as [|b w IH]; [done|]. rewrite !append_cons. by f_equal.
Qed.

Lemma all_blank_snoc (w : string) (c : ascii) :
  all_blank w = true → blank c = true → all_blank (w ++ String c "") = true.
Proof.
  intros Hw Hc. induction w as [|b w IH].
  - rewrite append_nil. simpl. by rewrite Hc.
  - rewrite append_cons. simpl in *.
    apply andb_prop in Hw as [-> Hw]. simpl. by apply IH.
Qed.

(** [replace_runs] collapses: the second half is the state inside a run. *)
Lemma replace_runs_collapsed (s : string) :
  Collapsed s (Slug.replace_runs false s)
  ∧ ∀ w, w ≠ "" → all_blank w = true →
         Collapsed (w ++ s) (String "-" (Slug.replace_runs true s)).
Proof.
  induction s as [|c s [IH1 IH2]].
  - split; [constructor|]. intros w Hw Hb.
    apply Collapsed_run; [done|done|done|constructor].
  - simpl. rewrite is_whitespace_blank. destruct (blank c) eqn:Hc.
    + assert (Hrun : ∀ w, all_blank w = true →
                Collapsed (w ++ String c s) (String "-" (Slug.replace_runs true s))).
      { intros w Hb. rewrite <- append_unit_assoc.
        apply IH2; [by destruct w|by apply all_blank_snoc]. }
      split; [by apply (Hrun "")|]. intros w _. apply Hrun.
    + split; [by apply Collapsed_unit|]. intros w Hw Hb.
      apply Collapsed_run; [done|done|done|by apply Collapsed_unit].
Qed.

Lemma replace_runs_after_run (w s : string) :
  all_blank w = true → starts_blank s = false →
  Slug.replace_runs true (w ++ s) = Slug.replace_runs false s.
Proof.
  intros Hw Hs. induction w as [|c w IH].
  - rewrite append_nil. destruct s as [|c s]; [done|]. simpl in *.
    by rewrite is_whitespace_blank, Hs.
  - rewrite append_cons. simpl in *.
    apply andb_prop in Hw as [Hc Hw]. rewrite is_whitespace_blank, Hc. by apply IH.
Qed.

(** What collapses from [s] is what [replace_runs] returns. *)
Lemma Collapsed_replace_runs (s k : string) :
  Collapsed s k → k = Slug.replace_runs false s.
Proof.
  induction 1 as [|c s k Hc _ IH|w s k Hw Hb Hs _ IH]; [done| |].
  - simpl. by rewrite is_whitespace_blank, Hc, IH.
  - destruct w as [|c w]; [done|]. rewrite append_cons. simpl in *.
    apply andb_prop in Hb as [Hc Hb].
    by rewrite is_whitespace_blank, Hc, replace_runs_after_run, IH.
Qed.

(** C7.  The key is a function of the submitted name alone: the name
    lower-cased, with each maximal run of white space turned into one dash
    and every other code unit kept, and nothing else is such a key (names
    being strings of code units below 256); "Stim Pak" and "stim   pak"
    both have the key "stim-pak".  When two createItem requests carry
    names with the same derived key and the key is not in the catalog yet,
    the first request succeeds and stores the item and the second is
    answered with the conflict error (400, Item already exists), broadcasts
    nothing and leaves the database as the first left it. *)
Theorem same_key_second_create_conflicts
    (u1 u2 : Claims) (n1 n2 : string) (d1 d2 i1 i2 : option string) (db : Db) :
  isAdmin u1 = true → isAdmin u2 = true →
  n1 ≠ "" → falsy d1 = false → falsy d2 = false →
  items db !! Slug.derive_key n1 = None →
  Slug.derive_key n1 = Slug.derive_key n2 →
  let out1 := post_items (ValidToken u1) (Some n1) d1 i1 db in
  let out2 := post_items (ValidToken u2) (Some n2) d2 i2 (db_of out1) in
  ((∃ low, Lowered n1 low ∧ Collapsed low (Slug.derive_key n1))
   ∧ (∀ low k, Lowered n1 low → Collapsed low k → k = Slug.derive_key n1)
   ∧ Slug.derive_key "Stim Pak" = "stim-pak"
   ∧ Slug.derive_key "stim   pak" = "stim-pak")
  ∧ normalized (Slug.derive_key n1)
  ∧ status (response_of out1) = 200
  ∧ is_Some (items (db_of out1) !! Slug.derive_key n1)
  ∧ out2 = (status_json 400 (ErrorBody "Item already exists"), db_of out1, []).
Proof.
  intros Ha1 Ha2 Hn1 Hd1 Hd2 Hfree Hkey out1 out2.
  split; [|split; [apply derive_key_normalized|]].
  { split; [|split; [|done]].
    - exists (Slug.toLowerCase n1). split; [apply toLowerCase_Lowered|].
      apply replace_runs_collapsed.
    - intros low k ->%Lowered_toLowerCase. apply Collapsed_replace_runs. }
  assert (Hn2 : n2 ≠ "").
  { intros ->. apply (derive_key_nonempty n1 Hn1). by rewrite Hkey. }
  assert (Hstored : is_Some (items (db_of out1) !! Slug.derive_key n1)).
  { subst out1. rewrite post_items_fresh by done.
    unfold db_of. simpl. rewrite lookup_insert_eq. by eexists. }
  split; [|split; [done|]].
  - subst out1. by rewrite post_items_fresh.
  - subst out2. apply post_items_conflict; try done. by rewrite <- Hkey.
Qed.

(** ** Broadcasts and accounts *)

Ltac run_route :=
  unfold_route; unfold_sql; simpl;
  repeat (case_match; simpl in *; simplify_eq).

Section Routes.

Variable bcrypt_hash : string → string.
Variable bcrypt_compare : string → string → bool.

Local Abbreviation handle := (handle bcrypt_hash bcrypt_compare).
Local Abbreviation login := (post_auth_login bcrypt_hash bcrypt_compare).

(** C6 (as amended).  Every successful create or delete on items, quests
    and party storage sends exactly one broadcast, of type ITEM_ADDED,
    ITEM_DELETED, QUEST_ADDED, QUEST_DELETED, and PARTY_STORAGE_UPDATED
    for the two storage routes; a request that fails sends none, and the
    inventory routes send none in any case. *)
Theorem broadcast_contract (r : Request) (db : Db) :
  let out := handle r db in
  match broadcast_type r with
  | Some t =>
      (status (response_of out) = 200 → ev_type <$> log_of out = [t])
      ∧ (status (response_of out) ≠ 200 → log_of out = [])
  | None => log_of out = []
  end.
Proof.
  destruct r; simpl; unfold post_auth_login;
    run_route; try split; try done.
Qed.

Lemma login_new (name password : string) (db : Db) :
  name ≠ "" → password ≠ "" → users db !! name = None →
  let id := seq_users db + 1 in
  login (Some name) (Some password) db
  = (json (LoginBody (mkClaims id name false) id name (Literal false)),
     set_users (insert name (mkUser id (bcrypt_hash password) false)) id db,
     []).
Proof.
  intros Hn Hp Hnew. unfold post_auth_login.
  rewrite (falsy_Some name Hn), (falsy_Some password Hp).
  unfold_route. simpl. rewrite Hnew. simpl.
  unfold Sql.insert_user. by rewrite Hnew.
Qed.

(** C10.  A login with an unseen username creates the account with the
    admin flag false and answers with a token and a user record whose
    isAdmin is false; and no request makes an account admin: an admin
    account found after a request was the same admin account before it. *)
Theorem auto_provisioned_account_is_not_admin
    (name password : string) (db : Db) :
  name ≠ "" → password ≠ "" → users db !! name = None →
  let out := login (Some name) (Some password) db in
  (∃ id, response_of out
         = json (LoginBody (mkClaims id name false) id name (Literal false))
         ∧ users (db_of out) !! name
           = Some (mkUser id (bcrypt_hash password) false))
  ∧ (∀ r db0 n acct,
       users (db_of (handle r db0)) !! n = Some acct →
       is_admin acct = true →
       users db0 !! n = Some acct).
Proof.
  intros Hn Hp Hnew out. split.
  - subst out. rewrite login_new by done. unfold response_of, db_of. simpl.
    eexists. split; [done|]. by rewrite lookup_insert_eq.
  - clear. intros r db0 n acct.
    destruct r; simpl; unfold post_auth_login;
      run_route; try done.
    unfold set_users. simpl. intros Hlook Hadm.
    destruct (decide (str name = n)) as [<-|Hne].
    + rewrite lookup_insert_eq in Hlook. by simplify_eq.
    + by rewrite lookup_insert_ne in Hlook.
Qed.

End Routes.

(** C6 as stated fails on the type of the storage broadcast: a successful
    addToStorage sends one PARTY_STORAGE_UPDATED, not STORAGE_UPDATED. *)
Lemma storage_broadcast_type :
  let c := ValidToken (mkClaims 2 "U" false) in
  let out := post_party_storage c (Some "stimpak") (Some 1) (initial_db "hash") in
  status (response_of out) = 200
  ∧ ev_type <$> log_of out = ["PARTY_STORAGE_UPDATED"]
  ∧ ev_type <$> log_of out ≠ ["STORAGE_UPDATED"].
Proof. by vm_compute. Qed.

(** ** The theorems at concrete requests *)

(** Adding 3 and then 2 stimpaks to the seeded database leaves 5. *)
Lemma add_to_inventory_accumulates_at_stimpak :
  let c := ValidToken (mkClaims 2 "U" false) in
  let add q db := db_of (post_inventory c (Some "stimpak") (Some q) db) in
  user_inventory (add 2 (add 3 (initial_db "hash"))) !! (2, "stimpak")
  = Some (INTEGER 5).
Proof.
  assert (H3 : Sqlite.int32 3) by (unfold Sqlite.int32; lia).
  pose proof (add_to_inventory_accumulates
                (mkClaims 2 "U" false) "stimpak" 3 (initial_db "hash")) as H.
  simpl in H. apply H; [discriminate|exact H3|reflexivity].
Defined.

(** Removing 5 from a line of 1 changes nothing. *)
Lemma remove_insufficient_unchanged_at_stimpak :
  let db := set_user_inventory (insert (2, "stimpak") (INTEGER 1)) (initial_db "hash") in
  delete_inventory (ValidToken (mkClaims 2 "U" false)) "stimpak" (Some 5) db
  = (json (MessageBody "Item removed from inventory"), db, []).
Proof.
  apply (remove_insufficient_unchanged (mkClaims 2 "U" false) "stimpak" (Some 5)).
  intros n Hn. vm_compute in Hn. injection Hn as <-. reflexivity.
Defined.

(** A session of adds with positive quantities and arbitrary removes. *)
Lemma lines_stay_positive_at_session :
  let c := ValidToken (mkClaims 2 "U" false) in
  Forall lines_positive
    (trace (λ s, s) String.eqb empty_db
       [ PostInventory c (Some "stimpak") (Some 2);
         DeleteInventory c "stimpak" (Some 1);
         DeleteInventory c "stimpak" (Some (-3));
         PostPartyStorage c (Some "radaway") None;
         DeletePartyStorage c "radaway" (Some 0) ]).
Proof.
  apply (lines_stay_positive (λ s, s) String.eqb).
  repeat constructor.
Defined.

(** Removing -1 from a line of 2 is answered with the success message and
    leaves 3. *)
Lemma quantity_is_not_validated_at_minus_one :
  let c := ValidToken (mkClaims 2 "U" false) in
  let db := set_user_inventory (insert (2, "stimpak") (INTEGER 2)) empty_db in
  let out := delete_inventory c "stimpak" (Some (-1)) db in
  response_of out = json (MessageBody "Item removed from inventory")
  ∧ user_inventory (db_of out) !! (2, "stimpak") = Some (INTEGER 3).
Proof.
  intros c db out.
  assert (Hk : "stimpak" ≠ "") by discriminate.
  assert (Hneg : -1 <= 0) by lia.
  assert (Hq : Sqlite.int32 (-1)) by (unfold Sqlite.int32; lia).
  assert (Hgt : 2 > -1) by lia.
  assert (Hdiff : Sqlite.int64 (2 - -1)) by (unfold Sqlite.int64; lia).
  destruct (quantity_defaults_to_one_and_is_not_validated
              NoToken (mkClaims 2 "U" false) None "stimpak" (-1) 2 db Hk Hneg Hq)
    as (_ & _ & _ & [Hresponse Hline] & _).
  split; [exact Hresponse|]. exact (Hline eq_refl Hgt Hdiff).
Defined.

(** Removing 2 from a line of 5 leaves 3, and the cleanup finds no row. *)
Lemma remove_is_strict_at_stimpak :
  let db := set_user_inventory (insert (2, "stimpak") (INTEGER 5)) empty_db in
  let inv := Sql.decrement_inventory 2 2 "stimpak" 2 db in
  user_inventory inv.2 !! (2, "stimpak") = Some (INTEGER 3)
  ∧ Sql.delete_inventory_nonpositive 2 "stimpak" inv.2 = (inr (mkRun 0 0), inv.2).
Proof.
  intros db inv.
  assert (Hq : Sqlite.int32 2) by (unfold Sqlite.int32; lia).
  assert (Hgt : 5 > 2) by lia.
  assert (Hdiff : Sqlite.int64 (5 - 2)) by (unfold Sqlite.int64; lia).
  destruct (remove_is_strict_and_never_deletes
              (mkClaims 2 "U" false) "stimpak" (Some 2) 5 db)
    as (_ & Hexact & _).
  destruct (Hexact Hq Hgt Hdiff) as [Hinv _].
  destruct (Hinv eq_refl) as (Hline & _ & Hclean).
  split; [exact Hline|exact Hclean].
Defined.

(** Deleting the stimpak from a catalog with stimpak lines in two
    inventories and in party storage. *)
Lemma delete_item_cascades_at_stimpak :
  let db := set_party_storage (insert "stimpak" (INTEGER 4))
              (set_user_inventory
                 (λ m, <[(2, "stimpak") := INTEGER 1]>
                         (<[(3, "stimpak") := INTEGER 2]> m))
                 (initial_db "hash")) in
  unreferenced "stimpak"
    (db_of (delete_items (ValidToken (mkClaims 1 "gm" true)) "stimpak" db)).
Proof.
  intros db.
  destruct (delete_item_cascades (mkClaims 1 "gm" true) "stimpak" db eq_refl)
    as [_ H].
  apply H. eexists. reflexivity.
Defined.

(** Creating Stim Pak and then stim   pak. *)
Lemma same_key_second_create_conflicts_at_stim_pak :
  let gm := ValidToken (mkClaims 1 "gm" true) in
  let db := db_of (post_items gm (Some "Stim Pak") (Some "Heals.") None (initial_db "hash")) in
  post_items gm (Some "stim   pak") (Some "Heals more.") None db
  = (status_json 400 (ErrorBody "Item already exists"), db, []).
Proof.
  apply (same_key_second_create_conflicts
           (mkClaims 1 "gm" true) (mkClaims 1 "gm" true)
           "Stim Pak" "stim   pak" (Some "Heals.") (Some "Heals more.") None None
           (initial_db "hash"));
    first [discriminate | reflexivity].
Defined.

(** A first login of a new player on the seeded database. *)
Lemma auto_provisioned_account_at_new_player :
  ∃ id,
    response_of (post_auth_login (λ s, s) String.eqb
                   (Some "dweller") (Some "secret") (initial_db "hash"))
    = json (LoginBody (mkClaims id "dweller" false) id "dweller" (Literal false))
    ∧ users (db_of (post_auth_login (λ s, s) String.eqb
                      (Some "dweller") (Some "secret") (initial_db "hash")))
      !! "dweller" = Some (mkUser id "secret" false).
Proof.
  apply (auto_provisioned_account_is_not_admin (λ s, s) String.eqb
           "dweller" "secret" (initial_db "hash"));
    first [discriminate | reflexivity].
Defined.

(** * Further properties of the routes *)

(** ** Access *)

Section Access.

Variable bcrypt_hash : string → string.
Variable bcrypt_compare : string → string → bool.

Local Abbreviation handle := (handle bcrypt_hash bcrypt_compare).

(** X1.  The eight writing routes and the listings of the catalog, of the
    inventory and of the party storage are behind [authenticateToken]:
    without a token the answer is 401, with a token that does not verify it
    is 403, and in both cases the database is untouched and nothing is
    broadcast.  (The login is not behind it, nor is /api/health.) *)
Theorem unauthenticated_request_is_rejected (r : Request) (db : Db) :
  let refused code error := status_json code (ErrorBody error) in
  match credential_of r with
  | Some NoToken => handle r db = (refused 401 "Access token required", db, [])
  | Some InvalidToken => handle r db = (refused 403 "Invalid token", db, [])
  | _ => True
  end
  ∧ get_items NoToken db = (Refused (refused 401 "Access token required"), db, [])
  ∧ get_items InvalidToken db = (Refused (refused 403 "Invalid token"), db, [])
  ∧ get_inventory NoToken db
    = (Refused (refused 401 "Access token required"), db, [])
  ∧ get_inventory InvalidToken db = (Refused (refused 403 "Invalid token"), db, [])
  ∧ get_party_storage NoToken db
    = (Refused (refused 401 "Access token required"), db, [])
  ∧ get_party_storage InvalidToken db
    = (Refused (refused 403 "Invalid token"), db, []).
Proof.
  split; [|done].
  destruct r as [| c ? ? ? | c ? | c ? ? | c ? ? | c ? ? | c ? ? | c ? ? ? | c ?];
    simpl; try done; by destruct c.
Qed.

(** X2.  A request that does not carry the valid token of an admin leaves
    the catalog and the quest log as they are (tables and counters), and the
    only broadcast it can cause is the party storage one. *)
Theorem catalog_changes_only_by_admin (r : Request) (db : Db) :
  ¬ by_admin r →
  let out := handle r db in
  items (db_of out) = items db ∧ seq_items (db_of out) = seq_items db
  ∧ quests (db_of out) = quests db ∧ seq_quests (db_of out) = seq_quests db
  ∧ ∀ e, e ∈ log_of out → ev_type e = "PARTY_STORAGE_UPDATED".
Proof.
  intros Hna out. subst out.
  assert (Hflag : ∀ u, credential_of r = Some (ValidToken u) → isAdmin u = false).
  { intros u Hu. destruct (isAdmin u) eqn:Hadm; [|done].
    destruct Hna. by exists u. }
  destruct r as [| c ? ? ? | c ? | c ? ? | c ? ? | c ? ? | c ? ? | c ? ? ? | c ?];
    simpl in *.
  2, 3, 8, 9: destruct c as [| |u];
    [| |rewrite <- (Hflag u eq_refl)]; unfold_route;
    try rewrite (Hflag u eq_refl); simpl;
    (repeat split; try done; by intros e ?%elem_of_nil).
  all: unfold post_auth_login; run_route;
    (repeat split; try done; intros e He;
     repeat (apply elem_of_cons in He as [->|He]; [done|]);
     by apply elem_of_nil in He).
Qed.

(** X3.  Each route writes its own tables only: the login the accounts,
    the item routes the catalog (and, on delete, the lines of that item),
    the inventory routes the inventory, the storage routes the party
    storage, the quest routes the quest log. *)
Theorem routes_keep_other_tables (r : Request) (db : Db) :
  let db' := db_of (handle r db) in
  let accounts := users db' = users db ∧ seq_users db' = seq_users db in
  let catalog := items db' = items db ∧ seq_items db' = seq_items db in
  let log := quests db' = quests db ∧ seq_quests db' = seq_quests db in
  let inventory := user_inventory db' = user_inventory db in
  let storage := party_storage db' = party_storage db in
  match r with
  | PostAuthLogin _ _ => catalog ∧ log ∧ inventory ∧ storage
  | PostItems _ _ _ _ => accounts ∧ log ∧ inventory ∧ storage
  | DeleteItems _ _ => accounts ∧ log
  | PostInventory _ _ _ | DeleteInventory _ _ _ => accounts ∧ catalog ∧ log ∧ storage
  | PostPartyStorage _ _ _ | DeletePartyStorage _ _ _ =>
      accounts ∧ catalog ∧ log ∧ inventory
  | PostQuests _ _ _ _ | DeleteQuests _ _ => accounts ∧ catalog ∧ inventory ∧ storage
  end.
Proof.
  destruct r; simpl; unfold post_auth_login; run_route; done.
Qed.

(** X4.  The inventory line of account a and item k is written by three
    kinds of request only: an add or a remove of k under a token of a, and
    an admin's delete of the catalog item k.  Every other request, whoever
    sends it, leaves the line as it is. *)
Theorem inventory_line_has_one_owner (a : Z) (k : string) (r : Request) (db : Db) :
  ¬ may_write_line a k r →
  user_inventory (db_of (handle r db)) !! (a, k) = user_inventory db !! (a, k).
Proof.
  intros Hno.
  destruct r as [| c ? ? ? | c k' | c ko q | c k' q | c ? ? | c ? ? | c ? ? ? | c ?];
    simpl in *.
  - unfold post_auth_login; by run_route.
  - unfold post_auth_login; by run_route.
  - destruct c as [| |u]; [done..|].
    destruct (isAdmin u) eqn:Hadm; [|unfold_route; by rewrite Hadm].
    destruct (items db !! k') as [it|] eqn:Hit.
    + rewrite delete_items_run by (done || by eexists). unfold db_of. simpl.
      destruct (cascade_lookups k' db) as (_ & _ & ->).
      case_decide; [|done]. destruct Hno. by subst.
    + unfold_route. rewrite Hadm. unfold Sql.delete_item. by rewrite Hit.
  - destruct c as [| |u]; [done..|]. destruct ko as [k'|]; [|done].
    destruct (decide (k' = "")) as [->|Hk']; [done|].
    rewrite post_inventory_run by done. unfold db_of, Sql.upsert_inventory. simpl.
    assert ((userId u, k') ≠ (a, k)) by (intros [= ? ?]; by destruct Hno).
    destruct (user_inventory db !! (userId u, k')); simpl;
      by rewrite lookup_insert_ne.
  - destruct c as [| |u]; [done..|].
    assert ((userId u, k') ≠ (a, k)) by (intros [= ? ?]; by destruct Hno).
    destruct (delete_inventory_cases u k' q db)
      as [[-> _]|(n & _ & _ & [[_ ->]|[_ ->]])];
      unfold db_of; cbn [fst snd]; simpl; [done| |].
    + by rewrite lookup_insert_ne.
    + rewrite lookup_delete_ne by done. by rewrite lookup_insert_ne.
  - unfold post_auth_login; by run_route.
  - unfold post_auth_login; by run_route.
  - unfold post_auth_login; by run_route.
  - unfold post_auth_login; by run_route.
Qed.

End Access.

(** ** Party storage and round trips *)

Lemma db_eta (db : Db) :
  mkDb (users db) (seq_users db) (items db) (seq_items db)
       (user_inventory db) (party_storage db) (quests db) (seq_quests db) = db.
Proof. by destruct db. Qed.

Lemma set_user_inventory_id f db :
  f (user_inventory db) = user_inventory db → set_user_inventory f db = db.
Proof. intros Hf. unfold set_user_inventory. rewrite Hf. apply db_eta. Qed.

Lemma set_party_storage_id f db :
  f (party_storage db) = party_storage db → set_party_storage f db = db.
Proof. intros Hf. unfold set_party_storage. rewrite Hf. apply db_eta. Qed.

(** An add on a line that holds an integer, within integer arithmetic. *)
Lemma post_inventory_exact_db (u : Claims) (k : string) (q : option Z) (n : Z) (db : Db) :
  k ≠ "" → Sqlite.int32 (default 1 q) →
  user_inventory db !! (userId u, k) = Some (INTEGER n) →
  Sqlite.int64 (n + default 1 q) →
  post_inventory (ValidToken u) (Some k) q db
  = (json (MessageBody "Item added to inventory"),
     set_user_inventory (insert (userId u, k) (INTEGER (n + default 1 q))) db,
     []).
Proof.
  intros Hk Hq Hn Hsum. rewrite post_inventory_run by done.
  unfold Sql.upsert_inventory. rewrite Hn. cbn [fst snd].
  by rewrite (bind_int32 _ Hq), add_integers.
Qed.

Lemma post_party_storage_exact_db (u : Claims) (k : string) (q : option Z) (n : Z) (db : Db) :
  k ≠ "" → Sqlite.int32 (default 1 q) →
  party_storage db !! k = Some (INTEGER n) →
  Sqlite.int64 (n + default 1 q) →
  post_party_storage (ValidToken u) (Some k) q db
  = (json (MessageBody "Item added to party storage"),
     set_party_storage (insert k (INTEGER (n + default 1 q))) db,
     [mkEvent "PARTY_STORAGE_UPDATED" NoPayload]).
Proof.
  intros Hk Hq Hn Hsum. rewrite post_party_storage_run by done.
  unfold Sql.upsert_storage. rewrite Hn. cbn [fst snd].
  by rewrite (bind_int32 _ Hq), add_integers.
Qed.

Lemma insert_back_inventory (i : Z * string) (n m : Z) (x : Number) (db : Db) :
  user_inventory db !! i = Some (INTEGER n) → m = n →
  set_user_inventory (insert i (INTEGER m)) (set_user_inventory (insert i x) db) = db.
Proof.
  intros Hn ->. unfold set_user_inventory. simpl.
  rewrite insert_insert_eq, (insert_id _ _ _ Hn). apply db_eta.
Qed.

Lemma insert_back_storage (k : string) (n m : Z) (x : Number) (db : Db) :
  party_storage db !! k = Some (INTEGER n) → m = n →
  set_party_storage (insert k (INTEGER m)) (set_party_storage (insert k x) db) = db.
Proof.
  intros Hn ->. unfold set_party_storage. simpl.
  rewrite insert_insert_eq, (insert_id _ _ _ Hn). apply db_eta.
Qed.

(** X5.  Party storage has one line per item whoever writes it: with
    32-bit quantities and sums within 64 bits, an add by one account and an
    add by another accumulate on the same line; each add is broadcast once,
    and the lines of other items are untouched. *)
Theorem party_storage_is_shared (u v : Claims) (k : string) (q1 q2 : Z) (db : Db) :
  k ≠ "" → Sqlite.int32 q1 → Sqlite.int32 q2 →
  let out1 := post_party_storage (ValidToken u) (Some k) (Some q1) db in
  let out2 := post_party_storage (ValidToken v) (Some k) (Some q2) (db_of out1) in
  (party_storage db !! k = None →
     party_storage (db_of out2) !! k = Some (INTEGER (q1 + q2)))
  ∧ (∀ n, party_storage db !! k = Some (INTEGER n) →
          Sqlite.int64 (n + q1) → Sqlite.int64 (n + q1 + q2) →
          party_storage (db_of out2) !! k = Some (INTEGER (n + q1 + q2)))
  ∧ (∀ k', k' ≠ k → party_storage (db_of out2) !! k' = party_storage db !! k')
  ∧ log_of out1 = [mkEvent "PARTY_STORAGE_UPDATED" NoPayload]
  ∧ log_of out2 = [mkEvent "PARTY_STORAGE_UPDATED" NoPayload].
Proof.
  intros Hk Hq1 Hq2 out1 out2.
  destruct (post_party_storage_exact u k q1 db Hk Hq1) as (Hnew1 & Hsum1 & Hrest1).
  destruct (post_party_storage_exact v k q2 (db_of out1) Hk Hq2)
    as (_ & Hsum2 & Hrest2).
  split; [|split; [|split]].
  - intros Hnone. apply Hsum2; [by apply Hnew1|].
    unfold Sqlite.int32, Sqlite.int64 in *. lia.
  - intros n Hn H1 H2. apply Hsum2; [by apply Hsum1|done].
  - intros k' Hne. subst out2. by rewrite Hrest2, <- Hrest1.
  - subst out2 out1. by rewrite !post_party_storage_run.
Qed.

(** X6.  On an inventory line that holds a positive integer, with a 32-bit
    quantity and a sum within 64 bits, an add followed by a remove of the
    same quantity gives the database back, and so does a remove that
    applies followed by the add. *)
Theorem inventory_add_remove_round_trip
    (u : Claims) (k : string) (q : option Z) (n : Z) (db : Db) :
  k ≠ "" → Sqlite.int32 (default 1 q) → Sqlite.int64 n →
  user_inventory db !! (userId u, k) = Some (INTEGER n) →
  let add db := db_of (post_inventory (ValidToken u) (Some k) q db) in
  let remove db := db_of (delete_inventory (ValidToken u) k q db) in
  (0 < n → Sqlite.int64 (n + default 1 q) → remove (add db) = db)
  ∧ (default 1 q < n → Sqlite.int64 (n - default 1 q) → add (remove db) = db).
Proof.
  intros Hk Hq Hn64 Hn add remove. subst add remove. cbv beta. split.
  - intros Hpos Hsum.
    rewrite (post_inventory_exact_db u k q n db) by done.
    unfold db_of at 2. cbn [fst snd].
    rewrite (delete_inventory_exact u k q (n + default 1 q)).
    + unfold db_of. cbn [fst snd]. apply (insert_back_inventory _ n); [done|lia].
    + done.
    + simpl. by rewrite lookup_insert_eq.
    + lia.
    + by replace (n + default 1 q - default 1 q) with n by lia.
  - intros Hlt Hdiff.
    rewrite (delete_inventory_exact u k q n db) by (done || lia).
    unfold db_of at 2. cbn [fst snd].
    rewrite (post_inventory_exact_db u k q (n - default 1 q)).
    + unfold db_of. cbn [fst snd]. apply (insert_back_inventory _ n); [done|lia].
    + done.
    + done.
    + simpl. by rewrite lookup_insert_eq.
    + by replace (n - default 1 q + default 1 q) with n by lia.
Qed.

(** X7.  The same round trips on a party storage line, where each of the
    two requests is broadcast. *)
Theorem storage_add_remove_round_trip
    (u v : Claims) (k : string) (q : option Z) (n : Z) (db : Db) :
  k ≠ "" → Sqlite.int32 (default 1 q) → Sqlite.int64 n →
  party_storage db !! k = Some (INTEGER n) →
  let add db := post_party_storage (ValidToken u) (Some k) q db in
  let remove db := delete_party_storage (ValidToken v) k q db in
  (0 < n → Sqlite.int64 (n + default 1 q) → db_of (remove (db_of (add db))) = db)
  ∧ (default 1 q < n → Sqlite.int64 (n - default 1 q) →
     db_of (add (db_of (remove db))) = db)
  ∧ (log_of (add db) ++ log_of (remove (db_of (add db))))%list
    = [mkEvent "PARTY_STORAGE_UPDATED" NoPayload;
       mkEvent "PARTY_STORAGE_UPDATED" NoPayload].
Proof.
  intros Hk Hq Hn64 Hn add remove. subst add remove. cbv beta.
  split; [|split].
  - intros Hpos Hsum.
    rewrite (post_party_storage_exact_db u k q n db) by done.
    unfold db_of at 2. cbn [fst snd].
    rewrite (delete_party_storage_exact v k q (n + default 1 q)).
    + unfold db_of. cbn [fst snd]. apply (insert_back_storage _ n); [done|lia].
    + done.
    + simpl. by rewrite lookup_insert_eq.
    + lia.
    + by replace (n + default 1 q - default 1 q) with n by lia.
  - intros Hlt Hdiff.
    rewrite (delete_party_storage_exact v k q n db) by (done || lia).
    unfold db_of at 2. cbn [fst snd].
    rewrite (post_party_storage_exact_db u k q (n - default 1 q)).
    + unfold db_of. cbn [fst snd]. apply (insert_back_storage _ n); [done|lia].
    + done.
    + done.
    + simpl. by rewrite lookup_insert_eq.
    + by replace (n - default 1 q + default 1 q) with n by lia.
  - rewrite post_party_storage_run by done.
    destruct (delete_party_storage_response v k q
                (db_of (json (MessageBody "Item added to party storage"),
                        (Sql.upsert_storage k (default 1 q) (default 1 q) db).2,
                        [mkEvent "PARTY_STORAGE_UPDATED" NoPayload])))
      as [_ ->].
    done.
Qed.

(** ** Accounts *)

Section Accounts.

Variable bcrypt_hash : string → string.
Variable bcrypt_compare : string → string → bool.

Local Abbreviation handle := (handle bcrypt_hash bcrypt_compare).
Local Abbreviation login := (post_auth_login bcrypt_hash bcrypt_compare).



(** X9.  No request deletes or alters an account: an account found before
    a request is found unchanged after it (same id, same password hash,
    same admin flag). *)
Theorem accounts_are_permanent (r : Request) (db : Db) (n : string) (acct : User) :
  users db !! n = Some acct →
  users (db_of (handle r db)) !! n = Some acct.
Proof.
  intros Hacct.
  destruct r; simpl; unfold post_auth_login; run_route; try done.
  unfold set_users. simpl. rewrite lookup_insert_ne; [done|]. congruence.
Qed.

(** X10.  A login writes the database in one case only: the name and the
    password are both present and non-empty and the name is unseen; it then
    answers 200.  A login never broadcasts. *)
Theorem login_writes_only_new_accounts (name password : option string) (db : Db) :
  let out := login name password db in
  log_of out = []
  ∧ (db_of out = db
     ∨ (falsy name = false ∧ falsy password = false
        ∧ users db !! str name = None
        ∧ status (response_of out) = 200)).
Proof.
  simpl. unfold post_auth_login. run_route; split; try done; try by left.
  right. by apply orb_false_elim in H as [-> ->].
Qed.

(** X11.  A POST whose required field is absent or empty (name or password
    of a login, name or description of an item or quest, item key of an
    add) is answered with a failure, writes nothing and broadcasts
    nothing. *)
Theorem missing_field_is_rejected (r : Request) (db : Db) :
  missing_field r = true →
  let out := handle r db in
  is_failure (response_of out) ∧ db_of out = db ∧ log_of out = [].
Proof.
  intros Hmiss.
  destruct r; simpl in *; try done; unfold post_auth_login; unfold is_failure;
    run_route; (split; [lia|done]).
Qed.

End Accounts.

(** ** Row ids *)

Section Ids.

Context {V : Type} (id : V → Z).

Lemma insert_keeps_ids (table : gmap string V) (counter : Z) (k : string) (v : V) :
  id v = counter + 1 →
  bounded_by id counter table → distinct_by id table →
  bounded_by id (counter + 1) (<[k:=v]> table)
  ∧ distinct_by id (<[k:=v]> table).
Proof.
  intros Hid Hb Hd. split.
  - intros k' v'. destruct (decide (k = k')) as [<-|Hne].
    + rewrite lookup_insert_eq. intros [= <-]. lia.
    + rewrite lookup_insert_ne by done. intros Hv'%Hb. lia.
  - intros k1 k2 v1 v2.
    destruct (decide (k = k1)) as [<-|Hne1]; destruct (decide (k = k2)) as [<-|Hne2];
      rewrite ?lookup_insert_eq, ?lookup_insert_ne by done; try done.
    + intros [= <-] Hv2%Hb. lia.
    + intros Hv1%Hb [= <-]. lia.
    + apply Hd.
Qed.

Lemma delete_keeps_ids (table : gmap string V) (counter : Z) (k : string) :
  bounded_by id counter table → distinct_by id table →
  bounded_by id counter (delete k table) ∧ distinct_by id (delete k table).
Proof.
  intros Hb Hd. split.
  - intros k' v' [_ Hv']%lookup_delete_Some. by apply (Hb k').
  - intros k1 k2 v1 v2 [_ H1]%lookup_delete_Some [_ H2]%lookup_delete_Some.
    by apply Hd.
Qed.

End Ids.

Section Reachable.

Variable bcrypt_hash : string → string.
Variable bcrypt_compare : string → string → bool.

Local Abbreviation handle := (handle bcrypt_hash bcrypt_compare).
Local Abbreviation run := (run bcrypt_hash bcrypt_compare).

Lemma handle_keeps_ids (r : Request) (db : Db) :
  ids_bounded db ∧ ids_distinct db →
  ids_bounded (db_of (handle r db)) ∧ ids_distinct (db_of (handle r db)).
Proof.
  intros [(Bu & Bi & Bq) (Du & Di & Dq)].
  destruct r; simpl; unfold post_auth_login; run_route;
    unfold ids_bounded, ids_distinct; simpl; try done.
  all: match goal with
    | |- context [<[?k:=?v]> (users ?d)] =>
        destruct (insert_keeps_ids user_id (users d) (seq_users d) k v); [done..|]
    | |- context [<[?k:=?v]> (items ?d)] =>
        destruct (insert_keeps_ids item_id (items d) (seq_items d) k v); [done..|]
    | |- context [<[?k:=?v]> (quests ?d)] =>
        destruct (insert_keeps_ids quest_id (quests d) (seq_quests d) k v); [done..|]
    | |- context [delete ?k (items ?d)] =>
        destruct (delete_keeps_ids item_id (items d) (seq_items d) k); [done..|]
    | |- context [delete ?k (quests ?d)] =>
        destruct (delete_keeps_ids quest_id (quests d) (seq_quests d) k); [done..|]
    end; done.
Qed.

Lemma initial_db_ids (adminPassword : string) :
  ids_bounded (initial_db adminPassword) ∧ ids_distinct (initial_db adminPassword).
Proof.
  unfold ids_bounded, ids_distinct, bounded_by, distinct_by, initial_db. simpl.
  split; (split; [|split]).
  - intros n u [<- <-]%lookup_singleton_Some. simpl. lia.
  - intros k i Hk.
    repeat (apply lookup_insert_Some in Hk as [[<- <-]|[_ Hk]]; [simpl; lia|]).
    by rewrite lookup_empty in Hk.
  - intros k q [<- <-]%lookup_singleton_Some. simpl. lia.
  - intros n1 n2 u1 u2 [<- <-]%lookup_singleton_Some [<- <-]%lookup_singleton_Some.
    done.
  - intros k1 k2 i1 i2 H1 H2.
    repeat (apply lookup_insert_Some in H1 as [[<- <-]|[_ H1]];
      [repeat (apply lookup_insert_Some in H2 as [[<- <-]|[_ H2]]; [done|]);
       by rewrite lookup_empty in H2|]).
    by rewrite lookup_empty in H1.
  - intros k1 k2 q1 q2 [<- <-]%lookup_singleton_Some [<- <-]%lookup_singleton_Some.
    done.
Qed.

Lemma advance_by_refl {V} (id : V → Z) (counter : Z) (table : gmap string V) :
  advance_by id counter table table.
Proof. intros k v Hv. by left. Qed.

Lemma advance_by_insert {V} (id : V → Z) (counter : Z) (table : gmap string V) k v :
  counter < id v → advance_by id counter table (<[k:=v]> table).
Proof.
  intros Hid k' v'. destruct (decide (k = k')) as [<-|Hne].
  - rewrite lookup_insert_eq. intros [= <-]. by right.
  - rewrite lookup_insert_ne by done. by left.
Qed.

Lemma advance_by_delete {V} (id : V → Z) (counter : Z) (table : gmap string V) k :
  advance_by id counter table (delete k table).
Proof. intros k' v' [_ Hv']%lookup_delete_Some. by left. Qed.

Lemma advance_by_not_reused {V} (id : V → Z) (counter : Z) (old new : gmap string V) :
  bounded_by id counter old → distinct_by id old →
  advance_by id counter old new → not_reused id old new.
Proof.
  intros Hb Hd Ha k v k' w Hv Hw Hid.
  destruct (Ha k' w Hw) as [Hold|Habove].
  - assert (k = k') as <- by (by apply (Hd k k' v w)).
    split; [done|]. congruence.
  - specialize (Hb k v Hv). lia.
Qed.

Lemma ids_advance_refl (db : Db) : ids_advance db db.
Proof.
  split; [lia|]. split; [|split]; apply advance_by_refl.
Qed.

Lemma ids_advance_trans (db1 db2 db3 : Db) :
  ids_advance db1 db2 → ids_advance db2 db3 → ids_advance db1 db3.
Proof.
  intros [Hc (Hu & Hi & Hq)] [Hc' (Hu' & Hi' & Hq')].
  split; [lia|]. split; [|split]; intros k v Hv.
  - destruct (Hu' k v Hv) as [Hv'|]; [|right; lia]. by apply Hu.
  - destruct (Hi' k v Hv) as [Hv'|]; [|right; lia]. by apply Hi.
  - destruct (Hq' k v Hv) as [Hv'|]; [|right; lia]. by apply Hq.
Qed.

(** One request: counters do not go down, and a new row takes an id above
    the counter. *)
Lemma handle_advances (r : Request) (db : Db) :
  ids_advance db (db_of (handle r db)).
Proof.
  destruct r; simpl; unfold post_auth_login; run_route;
    try apply ids_advance_refl;
    (split; [simpl; lia|]); simpl;
    (split; [|split]);
    first [ apply advance_by_refl
          | apply advance_by_delete
          | apply advance_by_insert; simpl; lia ].
Qed.

Lemma run_keeps_ids (rs : list Request) : ∀ db,
  ids_bounded db ∧ ids_distinct db →
  ids_bounded (run db rs) ∧ ids_distinct (run db rs).
Proof.
  induction rs as [|r rs IH]; intros db Hdb; [done|].
  simpl. apply IH. by apply handle_keeps_ids.
Qed.

Lemma run_advances (rs : list Request) : ∀ db, ids_advance db (run db rs).
Proof.
  induction rs as [|r rs IH]; intros db; [apply ids_advance_refl|].
  simpl. eapply ids_advance_trans; [apply handle_advances|apply IH].
Qed.

(** X12.  Ids are never reused.  In every database reached from the seeded
    one by any sequence of requests, no id is above its table's
    AUTOINCREMENT counter, and two accounts with different names have
    different ids, and so have two catalog items and two quests with
    different keys.  From there on, under any further sequence of requests,
    no counter goes down, and a row found later is a row that was there
    under the same key or has an id above the counter of then; so an id
    that a row had is never on another row later, whether or not the first
    row was deleted in between. *)
Theorem ids_are_never_reused (adminPassword : string) (rs1 rs2 : list Request) :
  let db1 := run (initial_db adminPassword) rs1 in
  let db2 := run db1 rs2 in
  ids_bounded db1 ∧ ids_distinct db1 ∧ ids_advance db1 db2
  ∧ ids_not_reused db1 db2.
Proof.
  intros db1 db2.
  destruct (run_keeps_ids rs1 (initial_db adminPassword)
              (initial_db_ids adminPassword)) as [Hb Hd].
  pose proof (run_advances rs2 db1) as Ha.
  split; [done|]. split; [done|]. split; [done|].
  destruct Hb as (Bu & Bi & Bq), Hd as (Du & Di & Dq), Ha as (_ & Au & Ai & Aq).
  split; [|split]; by eapply advance_by_not_reused.
Qed.

End Reachable.

(** ** Keys *)

Lemma normalized_fixed (key : string) :
  normalized key → Slug.derive_key key = key.
Proof.
  unfold normalized, Slug.derive_key.
  induction key as [|c s IH]; [done|]. simpl.
  intros Hn. inversion_clear Hn as [|? ? [Hup Hws] Hs].
  unfold Slug.lower_char. rewrite Hup, Hws. f_equal. by apply IH.
Qed.

Lemma replace_runs_length (s : string) : ∀ in_run,
  (String.length (Slug.replace_runs in_run s) <= String.length s)%nat.
Proof.
  induction s as [|c s IH]; intros in_run; simpl; [done|].
  pose proof (IH true). pose proof (IH false).
  destruct (Slug.is_whitespace c); [destruct in_run|]; simpl; lia.
Qed.

Lemma toLowerCase_length (s : string) :
  String.length (Slug.toLowerCase s) = String.length s.
Proof. induction s as [|c s IH]; simpl; [done|]. by rewrite IH. Qed.

(** X13.  On names of code units below 256: deriving a key from a key
    gives the key back, so an item or quest named by an existing key
    conflicts with it; a name and its lower-case form give the same key;
    the key has no more code units than the name and is empty for the
    empty name only. *)
Theorem derive_key_is_idempotent (name : string) :
  Slug.derive_key (Slug.derive_key name) = Slug.derive_key name
  ∧ Slug.derive_key (Slug.toLowerCase name) = Slug.derive_key name
  ∧ (String.length (Slug.derive_key name) <= String.length name)%nat
  ∧ (Slug.derive_key name = "" ↔ name = "").
Proof.
  split; [|split; [|split]].
  - apply normalized_fixed, derive_key_normalized.
  - unfold Slug.derive_key. f_equal.
    induction name as [|c s IH]; [done|]. simpl. rewrite IH. f_equal.
    unfold Slug.lower_char at 1. by rewrite lower_char_not_upper.
  - unfold Slug.derive_key.
    etransitivity; [apply replace_runs_length|]. by rewrite toLowerCase_length.
  - split; [|by intros ->].
    intros Hkey. destruct (decide (name = "")) as [|Hne]; [done|].
    by destruct (derive_key_nonempty name Hne).
Qed.

(** ** Creating and deleting *)

Section CreateQuest.

Variables (u : Claims) (n : string) (d i : option string) (db : Db).
Hypothesis admin : isAdmin u = true.
Hypothesis named : n ≠ "".
Hypothesis described : falsy d = false.

Lemma post_quests_fresh :
  quests db !! Slug.derive_key n = None →
  let q := mkQuest (seq_quests db + 1) n (str d)
             (if falsy i then "/api/placeholder/400/200" else str i) true in
  post_quests (ValidToken u) (Some n) d i db
  = (json (QuestBody (Slug.derive_key n) q),
     set_quests (insert (Slug.derive_key n) q) (seq_quests db + 1) db,
     [mkEvent "QUEST_ADDED" (QuestPayload (Slug.derive_key n) q)]).
Proof.
  intros Hfree. unfold_route. rewrite admin, (falsy_Some n named), described.
  simpl. unfold Sql.insert_quest. by rewrite Hfree.
Qed.

Lemma post_quests_conflict :
  is_Some (quests db !! Slug.derive_key n) →
  post_quests (ValidToken u) (Some n) d i db
  = (status_json 400 (ErrorBody "Quest already exists"), db, []).
Proof.
  intros [q Hq]. unfold_route. rewrite admin, (falsy_Some n named), described.
  simpl. unfold Sql.insert_quest. by rewrite Hq.
Qed.

End CreateQuest.

Lemma delete_quests_run (u : Claims) (k : string) (db : Db) :
  isAdmin u = true →
  delete_quests (ValidToken u) k db
  = match quests db !! k with
    | Some _ => (json (MessageBody "Quest deleted successfully"),
                 set_quests (delete k) (seq_quests db) db,
                 [mkEvent "QUEST_DELETED" (QuestKeyPayload k)])
    | None => (status_json 404 (ErrorBody "Quest not found"), db, [])
    end.
Proof.
  intros Hadm. unfold_route. rewrite Hadm. unfold Sql.delete_quest.
  by destruct (quests db !! k).
Qed.

(** X14.  The life of a quest.  An admin's create with a name whose key is
    free stores an active quest under the derived key, answers with it and
    broadcasts it; creating it again conflicts; deleting it by its key
    gives the quest table back and broadcasts QUEST_DELETED; deleting it
    again is answered 404.  Every failing step leaves the database as it
    was. *)
Theorem quest_create_then_delete
    (u : Claims) (name : string) (d i : option string) (db : Db) :
  isAdmin u = true → name ≠ "" → falsy d = false →
  quests db !! Slug.derive_key name = None →
  let key := Slug.derive_key name in
  let c := ValidToken u in
  let out1 := post_quests c (Some name) d i db in
  let out2 := delete_quests c key (db_of out1) in
  (∃ q, response_of out1 = json (QuestBody key q)
        ∧ log_of out1 = [mkEvent "QUEST_ADDED" (QuestPayload key q)]
        ∧ quests (db_of out1) !! key = Some q
        ∧ quest_name q = name ∧ quest_is_active q = true
        ∧ quest_id q = seq_quests db + 1)
  ∧ post_quests c (Some name) d i (db_of out1)
    = (status_json 400 (ErrorBody "Quest already exists"), db_of out1, [])
  ∧ response_of out2 = json (MessageBody "Quest deleted successfully")
  ∧ log_of out2 = [mkEvent "QUEST_DELETED" (QuestKeyPayload key)]
  ∧ quests (db_of out2) = quests db
  ∧ delete_quests c key (db_of out2)
    = (status_json 404 (ErrorBody "Quest not found"), db_of out2, []).
Proof.
  intros Hadm Hn Hd Hfree key c out1 out2. subst out2 out1 c key.
  rewrite (post_quests_fresh u name d i db) by done.
  unfold response_of, db_of, log_of. cbn [fst snd].
  set (q := mkQuest _ _ _ _ _).
  set (db1 := set_quests _ _ db).
  assert (Hq : quests db1 !! Slug.derive_key name = Some q)
    by apply lookup_insert_eq.
  split; [exists q; repeat split; done|].
  split; [apply post_quests_conflict; [done..|by eexists]|].
  rewrite !delete_quests_run by done. rewrite Hq. cbn [fst snd].
  assert (Hback : quests (set_quests (delete (Slug.derive_key name)) (seq_quests db1) db1)
                  = quests db).
  { subst db1. simpl. rewrite delete_insert_eq. by apply delete_id. }
  repeat split; [done|].
  rewrite Hback, Hfree. done.
Qed.

(** X15.  The life of a catalog item.  The created item is stored as it is
    answered and broadcast, with the placeholder image when no image is
    given; deleting it by its key gives the catalog back and leaves no
    line on that key; its id is used up: the same name created again gets
    the next id. *)
Theorem item_create_then_delete
    (u : Claims) (name : string) (d i : option string) (db : Db) :
  isAdmin u = true → name ≠ "" → falsy d = false →
  items db !! Slug.derive_key name = None →
  let key := Slug.derive_key name in
  let c := ValidToken u in
  let out1 := post_items c (Some name) d i db in
  let out2 := delete_items c key (db_of out1) in
  let out3 := post_items c (Some name) d i (db_of out2) in
  (∃ it, response_of out1 = json (ItemBody key it)
         ∧ log_of out1 = [mkEvent "ITEM_ADDED" (ItemPayload key it)]
         ∧ items (db_of out1) !! key = Some it
         ∧ item_id it = seq_items db + 1
         ∧ item_image_url it
           = if falsy i then "/api/placeholder/200/150" else str i)
  ∧ response_of out2 = json (MessageBody "Item deleted successfully")
  ∧ items (db_of out2) = items db
  ∧ unreferenced key (db_of out2)
  ∧ (∃ it, items (db_of out3) !! key = Some it ∧ item_id it = seq_items db + 2).
Proof.
  intros Hadm Hn Hd Hfree key c out1 out2 out3. subst out3 out2 out1 c key.
  rewrite (post_items_fresh u name d i db) by done.
  unfold response_of, db_of, log_of. cbn [fst snd].
  set (it := mkItem _ _ _ _).
  set (db1 := set_items _ _ db).
  assert (Hit : items db1 !! Slug.derive_key name = Some it)
    by apply lookup_insert_eq.
  split; [exists it; repeat split; done|].
  rewrite delete_items_run by (done || by eexists). cbn [fst snd].
  destruct (cascade_lookups (Slug.derive_key name) db1) as (Hitems & Hsto & Hinv).
  set (db2 := (Sql.delete_storage_of_item _ _).2) in *.
  assert (Hgone : items db2 = items db).
  { apply map_eq. intros k'. rewrite Hitems. case_decide as Hk'.
    - by subst.
    - subst db1. simpl. by rewrite lookup_insert_ne. }
  assert (Hseq : seq_items db2 = seq_items db + 1).
  { subst db2 db1. unfold Sql.delete_item, Sql.delete_storage_of_item,
      Sql.delete_inventory_of_item. simpl. rewrite lookup_insert_eq. simpl.
    by destruct (party_storage db !! _). }
  split; [done|]. split; [done|]. split.
  - split; [intros a; rewrite Hinv|rewrite Hsto]; by case_decide.
  - rewrite (post_items_fresh u name d i db2) by (done || by rewrite Hgone).
    cbn [fst snd]. simpl. rewrite lookup_insert_eq, Hseq.
    eexists. split; [done|]. simpl. lia.
Qed.

(** ** The listings *)

#[local] Instance by_name_total {A} (name : A → string) : Total (by_name name).
Proof. intros x y. apply String.leb_total. Qed.

Lemma order_by_elem {A} (name : A → string) (rows : list A) (x : A) :
  x ∈ order_by name rows ↔ x ∈ rows.
Proof. unfold order_by. by rewrite merge_sort_Permutation. Qed.

Lemma order_by_NoDup {A} (name : A → string) (rows : list A) :
  NoDup rows → NoDup (order_by name rows).
Proof. unfold order_by. by rewrite merge_sort_Permutation. Qed.

Lemma order_by_sorted {A} (name : A → string) (rows : list A) :
  Sorted (by_name name) (order_by name rows).
Proof. apply Sorted_merge_sort, _. Qed.

Lemma NoDup_omap_inj {A B} (f : A → option B) (l : list A) :
  (∀ x y z, x ∈ l → y ∈ l → f x = Some z → f y = Some z → x = y) →
  NoDup l → NoDup (omap f l).
Proof.
  intros Hinj Hnd. induction Hnd as [|x l Hx Hl IH]; simpl; [constructor|].
  assert (Hrest : NoDup (omap f l)).
  { apply IH. intros y1 y2 z H1 H2. apply Hinj; by right. }
  destruct (f x) as [z|] eqn:Hz; [|done].
  constructor; [|done].
  intros (y & Hy & Hfy)%list_elem_of_omap.
  rewrite (Hinj x y z) in Hx; [done|by left|by right|done|done].
Qed.

(** Two entries of a table under one key are one entry. *)
Lemma map_to_list_same_key `{Countable K} {V} (m : gmap K V) (k : K) (v1 v2 : V) :
  (k, v1) ∈ map_to_list m → (k, v2) ∈ map_to_list m → v1 = v2.
Proof. rewrite !elem_of_map_to_list. congruence. Qed.

Lemma join_item_Some db k q row :
  Query.join_item db k q = Some row ↔
  ∃ it, items db !! k = Some it
        ∧ row = mkLineRow k (Sqlite.real_value q)
                  (item_name it) (item_description it) (item_image_url it).
Proof.
  unfold Query.join_item. destruct (items db !! k) as [it|]; split.
  - intros [= <-]. by exists it.
  - intros (it' & [= <-] & ->). done.
  - done.
  - by intros (it' & [=] & _).
Qed.

(** X16.  GET /api/items needs a token but no admin flag; it lists every
    catalog item once, in ascending order of name, and nothing else, and it
    writes and broadcasts nothing. *)
Theorem get_items_lists_catalog (u : Claims) (db : Db) :
  get_items NoToken db
  = (Refused (status_json 401 (ErrorBody "Access token required")), db, [])
  ∧ get_items InvalidToken db
    = (Refused (status_json 403 (ErrorBody "Invalid token")), db, [])
  ∧ ∃ rows, get_items (ValidToken u) db = (Rows rows, db, [])
      ∧ (∀ k it, (k, it) ∈ rows ↔ items db !! k = Some it)
      ∧ NoDup rows.*1
      ∧ Sorted (by_name (λ r : string * Item, item_name r.2)) rows.
Proof.
  split; [done|]. split; [done|].
  exists (Query.all_items db). split; [done|]. unfold Query.all_items.
  split; [|split].
  - intros k it. by rewrite order_by_elem, elem_of_map_to_list.
  - unfold order_by. rewrite merge_sort_Permutation.
    apply NoDup_fst_map_to_list.
  - apply order_by_sorted.
Qed.

Lemma inventory_of_elem (a : Z) (db : Db) (row : LineRow) :
  row ∈ Query.inventory_of a db ↔
  ∃ it n, user_inventory db !! (a, row_item_key row) = Some n
        ∧ row_quantity row = Sqlite.real_value n
        ∧ items db !! row_item_key row = Some it
        ∧ row_name row = item_name it
        ∧ row_description row = item_description it
        ∧ row_image_url row = item_image_url it.
Proof.
  unfold Query.inventory_of. rewrite order_by_elem, list_elem_of_omap. split.
  - intros ([[a' k] q] & Hline%elem_of_map_to_list & Hrow). simpl in Hrow.
    case_decide; [subst a'|done].
    apply join_item_Some in Hrow as (it & Hit & ->). simpl. by exists it, q.
  - intros (it & n & Hline & Hq & Hit & Hname & Hdesc & Himg).
    exists ((a, row_item_key row), n). split.
    + by apply elem_of_map_to_list.
    + simpl. rewrite decide_True by done. apply join_item_Some.
      exists it. split; [done|]. destruct row. simpl in *. by subst.
Qed.

(** X17.  GET /api/inventory lists the caller's own lines and only those
    whose item is in the catalog, each once with the item's name,
    description and image and with the quantity as the JavaScript number
    that reads the column, in ascending order of name.  A line of another
    account, or a line on a key the catalog does not hold, is not listed.
    The route writes and broadcasts nothing. *)
Theorem get_inventory_lists_own_catalogued_lines (u : Claims) (db : Db) :
  ∃ rows, get_inventory (ValidToken u) db = (Rows rows, db, [])
    ∧ (∀ row, row ∈ rows ↔
         ∃ it n, user_inventory db !! (userId u, row_item_key row) = Some n
               ∧ row_quantity row = Sqlite.real_value n
               ∧ items db !! row_item_key row = Some it
               ∧ row_name row = item_name it
               ∧ row_description row = item_description it
               ∧ row_image_url row = item_image_url it)
    ∧ NoDup rows
    ∧ Sorted (by_name row_name) rows.
Proof.
  exists (Query.inventory_of (userId u) db). split; [done|].
  split; [|split].
  - intros row. apply inventory_of_elem.
  - unfold Query.inventory_of.
    apply order_by_NoDup, NoDup_omap_inj; [|apply NoDup_map_to_list].
    intros [[a1 k1] q1] [[a2 k2] q2] row Hin1 Hin2 H1 H2. simpl in *.
    repeat case_decide; try done. subst.
    apply join_item_Some in H1 as (it1 & _ & ->).
    apply join_item_Some in H2 as (it2 & _ & [= -> _]).
    by rewrite (map_to_list_same_key _ _ _ _ Hin1 Hin2).
  - apply order_by_sorted.
Qed.

(** X18.  GET /api/party-storage lists, for any token holder alike, the
    storage lines whose item is in the catalog, each once with the item's
    columns and with the quantity as the JavaScript number that reads the
    column, in ascending order of name; it writes and broadcasts
    nothing. *)
Theorem get_party_storage_lists_catalogued_lines (u : Claims) (db : Db) :
  ∃ rows, (∀ v, get_party_storage (ValidToken v) db = (Rows rows, db, []))
    ∧ (∀ row, row ∈ rows ↔
         ∃ it n, party_storage db !! row_item_key row = Some n
               ∧ row_quantity row = Sqlite.real_value n
               ∧ items db !! row_item_key row = Some it
               ∧ row_name row = item_name it
               ∧ row_description row = item_description it
               ∧ row_image_url row = item_image_url it)
    ∧ NoDup rows
    ∧ Sorted (by_name row_name) rows.
Proof.
  exists (Query.storage db). split; [done|].
  unfold Query.storage. split; [|split].
  - intros row. rewrite order_by_elem, list_elem_of_omap. split.
    + intros ([k q] & Hline%elem_of_map_to_list & Hrow). simpl in Hrow.
      apply join_item_Some in Hrow as (it & Hit & ->). simpl. by exists it, q.
    + intros (it & n & Hline & Hq & Hit & Hname & Hdesc & Himg).
      exists (row_item_key row, n). split.
      * by apply elem_of_map_to_list.
      * simpl. apply join_item_Some.
        exists it. split; [done|]. destruct row. simpl in *. by subst.
  - apply order_by_NoDup, NoDup_omap_inj; [|apply NoDup_map_to_list].
    intros [k1 q1] [k2 q2] row Hin1 Hin2 H1 H2. simpl in *.
    apply join_item_Some in H1 as (it1 & _ & ->).
    apply join_item_Some in H2 as (it2 & _ & [= -> _]).
    by rewrite (map_to_list_same_key _ _ _ _ Hin1 Hin2).
  - apply order_by_sorted.
Qed.

(** X19.  An add does not look the item up in the catalog: on a key the
    catalog does not hold it is answered with the success message and the
    line is stored, but the caller's listing does not show the line; once
    an admin creates an item with that key the line is listed with the
    quantity added before. *)
Theorem uncatalogued_line_is_hidden
    (u g : Claims) (k : string) (q : option Z) (d i : option string) (db : Db) :
  k ≠ "" → items db !! k = None → user_inventory db !! (userId u, k) = None →
  isAdmin g = true → falsy d = false → Slug.derive_key k = k →
  let out := post_inventory (ValidToken u) (Some k) q db in
  let listing db := get_inventory (ValidToken u) db in
  let created := db_of (post_items (ValidToken g) (Some k) d i (db_of out)) in
  response_of out = json (MessageBody "Item added to inventory")
  ∧ user_inventory (db_of out) !! (userId u, k)
    = Some (Sqlite.affinity (Sqlite.bind (default 1 q)))
  ∧ (∃ rows, listing (db_of out) = (Rows rows, db_of out, [])
             ∧ ∀ row, row ∈ rows → row_item_key row ≠ k)
  ∧ (∃ rows row, listing created = (Rows rows, created, [])
             ∧ row ∈ rows ∧ row_item_key row = k
             ∧ row_quantity row = Sqlite.to_double (default 1 q)
             ∧ row_name row = k).
Proof.
  intros Hk Hfree Hline Hadm Hd Hkey out listing created.
  subst created listing out.
  rewrite post_inventory_run by done.
  unfold response_of, db_of. cbn [fst snd].
  set (db1 := (Sql.upsert_inventory _ _ _ _ db).2).
  assert (Hitems1 : items db1 = items db).
  { subst db1. unfold Sql.upsert_inventory.
    by destruct (user_inventory db !! _). }
  assert (Hline1 : user_inventory db1 !! (userId u, k)
                   = Some (Sqlite.affinity (Sqlite.bind (default 1 q)))).
  { subst db1. rewrite upsert_inventory_lookup. by rewrite Hline. }
  split; [done|]. split; [done|]. split.
  - exists (Query.inventory_of (userId u) db1). split; [done|].
    intros row (it & n & _ & _ & Hit & _)%inventory_of_elem Heq.
    by rewrite Heq, Hitems1, Hfree in Hit.
  - rewrite (post_items_fresh g k d i db1) by (done || by rewrite Hkey, Hitems1).
    cbn [fst snd]. rewrite Hkey.
    set (it := mkItem _ _ _ _). set (db2 := set_items _ _ db1).
    exists (Query.inventory_of (userId u) db2),
           (mkLineRow k (Sqlite.to_double (default 1 q)) k
              (item_description it) (item_image_url it)).
    split; [done|]. split; [|done].
    apply inventory_of_elem.
    exists it, (Sqlite.affinity (Sqlite.bind (default 1 q))). simpl.
    split; [done|]. split.
    { unfold Sqlite.real_value. by rewrite value_affinity, value_bind. }
    split; [|done]. apply lookup_insert_eq.
Qed.

(** ** The sockets *)

Lemma add_NoDup ws clients : NoDup clients → NoDup (Sockets.add ws clients).
Proof.
  intros Hnd. unfold Sockets.add. case_decide; [done|].
  apply NoDup_app. split; [done|]. split; [|apply NoDup_singleton].
  intros x Hx ->%list_elem_of_singleton. done.
Qed.

Lemma clients_NoDup (events : list Sockets.SocketEvent) :
  NoDup (foldl Sockets.on_event [] events).
Proof.
  induction events as [|e events IH] using rev_ind; [constructor|].
  rewrite foldl_app. simpl. destruct e; simpl.
  - by apply add_NoDup.
  - by apply NoDup_filter.
Qed.

Lemma clients_elem (events : list Sockets.SocketEvent) (ws : nat) :
  ws ∈ foldl Sockets.on_event [] events ↔
  ∃ before after, events = (before ++ Sockets.Connection ws :: after)%list
                  ∧ Sockets.Close ws ∉ after.
Proof.
  induction events as [|e events IH] using rev_ind.
  - simpl. split; [by intros ?%elem_of_nil|].
    intros (before & after & Heq & _). by destruct before.
  - rewrite foldl_app. simpl. destruct e as [ws'|ws']; simpl.
    + unfold Sockets.add. destruct (decide (ws = ws')) as [<-|Hne].
      * split; [|intros _; case_decide; [done|]; apply elem_of_app; right;
                 by apply list_elem_of_singleton].
        intros _. exists events, []. split; [done|]. by intros ?%elem_of_nil.
      * transitivity (ws ∈ foldl Sockets.on_event [] events).
        { case_decide; [done|]. rewrite elem_of_app, list_elem_of_singleton.
          intuition congruence. }
        rewrite IH. split.
        -- intros (before & after & -> & Hno).
           exists before, (after ++ [Sockets.Connection ws'])%list.
           split; [by rewrite <- app_assoc|].
           rewrite elem_of_app, list_elem_of_singleton. intuition congruence.
        -- intros (before & after & Heq & Hno).
           destruct after as [|e after _] using rev_ind.
           { apply app_inj_tail in Heq as [_ [= ->]]. done. }
           rewrite app_comm_cons, app_assoc in Heq.
           apply app_inj_tail in Heq as [-> _].
           exists before, after. split; [done|].
           intros Hin. apply Hno. apply elem_of_app. by left.
    + unfold Sockets.delete. rewrite list_elem_of_filter, IH. split.
      * intros (Hne & before & after & -> & Hno).
        exists before, (after ++ [Sockets.Close ws'])%list.
        split; [by rewrite <- app_assoc|].
        rewrite elem_of_app, list_elem_of_singleton. intuition congruence.
      * intros (before & after & Heq & Hno).
        destruct after as [|e after _] using rev_ind.
        { by apply app_inj_tail in Heq as [_ [=]]. }
        rewrite app_comm_cons, app_assoc in Heq.
        apply app_inj_tail in Heq as [-> <-].
        split.
        -- intros ->. apply Hno. apply elem_of_app. right.
           by apply list_elem_of_singleton.
        -- exists before, after. split; [done|].
           intros Hin. apply Hno. apply elem_of_app. by left.
Qed.

Lemma broadcast_count_absent readyState clients data ws :
  ¬ (ws ∈ clients ∧ readyState ws = Sockets.OPEN) →
  filter (λ s : nat * Event, s.1 = ws) (Sockets.broadcast readyState clients data) = [].
Proof.
  unfold Sockets.broadcast. intros Hno.
  induction clients as [|c clients IH]; simpl; [done|].
  assert (Hrest : ¬ (ws ∈ clients ∧ readyState ws = Sockets.OPEN)).
  { intros [Hin Hopen]. apply Hno. split; [by right|done]. }
  destruct (readyState c) eqn:Hc; simpl; try by apply IH.
  rewrite filter_cons_False; [by apply IH|]. simpl. intros ->.
  apply Hno. split; [by left|done].
Qed.

Lemma broadcast_count_present readyState clients data ws :
  NoDup clients → ws ∈ clients → readyState ws = Sockets.OPEN →
  filter (λ s : nat * Event, s.1 = ws) (Sockets.broadcast readyState clients data)
  = [(ws, data)].
Proof.
  intros Hnd Hin Hopen. unfold Sockets.broadcast.
  induction Hnd as [|c clients Hc Hnd IH]; simpl; [by apply elem_of_nil in Hin|].
  apply elem_of_cons in Hin as [<-|Hin].
  - rewrite Hopen. rewrite filter_cons_True by done. f_equal.
    apply (broadcast_count_absent readyState clients data ws). by intros [? _].
  - assert (c ≠ ws) by (by intros ->).
    destruct (readyState c); simpl;
      rewrite ?filter_cons_False by done; by apply IH.
Qed.

(** X20.  After any history of connections and closes, a socket is in the
    client set exactly when it has connected and not closed since, and a
    broadcast sends the data once to every such socket whose state is OPEN
    and nothing to any other socket. *)
Theorem broadcast_reaches_open_clients_once
    (events : list Sockets.SocketEvent) (readyState : nat → Sockets.ReadyState)
    (data : Event) (ws : nat) :
  let clients := foldl Sockets.on_event [] events in
  let sends := Sockets.broadcast readyState clients data in
  (ws ∈ clients ↔
     ∃ before after, events = (before ++ Sockets.Connection ws :: after)%list
                     ∧ Sockets.Close ws ∉ after)
  ∧ (∀ m, (ws, m) ∈ sends → m = data)
  ∧ (ws ∈ clients → readyState ws = Sockets.OPEN →
     filter (λ s : nat * Event, s.1 = ws) sends = [(ws, data)])
  ∧ (¬ (ws ∈ clients ∧ readyState ws = Sockets.OPEN) →
     filter (λ s : nat * Event, s.1 = ws) sends = []).
Proof.
  intros clients sends. split; [apply clients_elem|]. split.
  - subst sends. unfold Sockets.broadcast.
    intros m (c & _ & Hc)%list_elem_of_omap.
    destruct (readyState c); by simplify_eq.
  - split.
    + apply broadcast_count_present, clients_NoDup.
    + apply broadcast_count_absent.
Qed.

(** ** The further properties at concrete requests *)

(** A player without the admin flag asks for a new catalog item. *)
Lemma catalog_changes_only_by_admin_at_player :
  let r := PostItems (ValidToken (mkClaims 2 "U" false))
             (Some "Fat Man") (Some "A launcher.") None in
  items (db_of (handle (λ s, s) String.eqb r (initial_db "hash")))
  = items (initial_db "hash").
Proof.
  intros r.
  apply (catalog_changes_only_by_admin (λ s, s) String.eqb r (initial_db "hash")).
  intros (u & Hc & Hadm). injection Hc as <-. discriminate Hadm.
Defined.

(** Account 2 adds stimpaks; the line of account 3 stays. *)
Lemma inventory_line_has_one_owner_at_neighbour :
  let db := set_user_inventory (insert (3, "stimpak") (INTEGER 1)) (initial_db "hash") in
  let r := PostInventory (ValidToken (mkClaims 2 "U" false))
             (Some "stimpak") (Some 5) in
  user_inventory (db_of (handle (λ s, s) String.eqb r db)) !! (3, "stimpak")
  = user_inventory db !! (3, "stimpak").
Proof.
  intros db r.
  apply (inventory_line_has_one_owner (λ s, s) String.eqb 3 "stimpak" r db).
  intros [Hid _]. discriminate Hid.
Defined.

(** Two accounts add radaway to the party storage. *)
Lemma party_storage_is_shared_at_radaway :
  let u := ValidToken (mkClaims 2 "U" false) in
  let v := ValidToken (mkClaims 3 "V" false) in
  let db1 := db_of (post_party_storage u (Some "radaway") (Some 2) (initial_db "hash")) in
  party_storage (db_of (post_party_storage v (Some "radaway") (Some 3) db1)) !! "radaway"
  = Some (INTEGER 5).
Proof.
  assert (Hk : "radaway" ≠ "") by discriminate.
  assert (H2 : Sqlite.int32 2) by (unfold Sqlite.int32; lia).
  assert (H3 : Sqlite.int32 3) by (unfold Sqlite.int32; lia).
  destruct (party_storage_is_shared (mkClaims 2 "U" false) (mkClaims 3 "V" false)
              "radaway" 2 3 (initial_db "hash") Hk H2 H3) as [Hnew _].
  exact (Hnew eq_refl).
Defined.

(** Adding and removing 3 on a line of 4. *)
Lemma inventory_add_remove_round_trip_at_stimpak :
  let c := ValidToken (mkClaims 2 "U" false) in
  let db := set_user_inventory (insert (2, "stimpak") (INTEGER 4)) (initial_db "hash") in
  db_of (delete_inventory c "stimpak" (Some 3)
           (db_of (post_inventory c (Some "stimpak") (Some 3) db))) = db.
Proof.
  intros c db.
  assert (Hk : "stimpak" ≠ "") by discriminate.
  assert (Hq : Sqlite.int32 (default 1 (Some 3))) by (unfold Sqlite.int32; simpl; lia).
  assert (Hn : Sqlite.int64 4) by (unfold Sqlite.int64; lia).
  assert (Hpos : 0 < 4) by lia.
  assert (Hsum : Sqlite.int64 (4 + default 1 (Some 3)))
    by (unfold Sqlite.int64; simpl; lia).
  destruct (inventory_add_remove_round_trip
              (mkClaims 2 "U" false) "stimpak" (Some 3) 4 db Hk Hq Hn eq_refl)
    as [Hback _].
  exact (Hback Hpos Hsum).
Defined.

Lemma storage_add_remove_round_trip_at_stimpak :
  let u := ValidToken (mkClaims 2 "U" false) in
  let v := ValidToken (mkClaims 3 "V" false) in
  let db := set_party_storage (insert "stimpak" (INTEGER 4)) (initial_db "hash") in
  db_of (delete_party_storage v "stimpak" None
           (db_of (post_party_storage u (Some "stimpak") None db))) = db.
Proof.
  intros u v db.
  assert (Hk : "stimpak" ≠ "") by discriminate.
  assert (Hq : Sqlite.int32 (default 1 None)) by (unfold Sqlite.int32; simpl; lia).
  assert (Hn : Sqlite.int64 4) by (unfold Sqlite.int64; lia).
  assert (Hpos : 0 < 4) by lia.
  assert (Hsum : Sqlite.int64 (4 + default 1 None))
    by (unfold Sqlite.int64; simpl; lia).
  destruct (storage_add_remove_round_trip
              (mkClaims 2 "U" false) (mkClaims 3 "V" false) "stimpak" None 4 db
              Hk Hq Hn eq_refl)
    as [Hback _].
  exact (Hback Hpos Hsum).
Defined.


(** The game master's account after somebody tries its name. *)
Lemma accounts_are_permanent_at_gm :
  users (db_of (handle (λ s, s) String.eqb
                  (PostAuthLogin (Some "gm") (Some "guess")) (initial_db "hash")))
  !! "gm" = Some (mkUser 1 "hash" true).
Proof.
  apply (accounts_are_permanent (λ s, s) String.eqb). reflexivity.
Defined.

(** An add to the party storage with an empty item key. *)
Lemma missing_field_is_rejected_at_empty_key :
  let r := PostPartyStorage (ValidToken (mkClaims 2 "U" false)) (Some "") None in
  let out := handle (λ s, s) String.eqb r (initial_db "hash") in
  is_failure (response_of out) ∧ db_of out = initial_db "hash" ∧ log_of out = [].
Proof.
  apply (missing_field_is_rejected (λ s, s) String.eqb). reflexivity.
Defined.

(** The game master opens and closes a quest. *)
Lemma quest_create_then_delete_at_find_water :
  let gm := ValidToken (mkClaims 1 "gm" true) in
  let db := initial_db "hash" in
  let out1 := post_quests gm (Some "Find Water") (Some "The chip broke.") None db in
  quests (db_of (delete_quests gm "find-water" (db_of out1))) = quests db.
Proof.
  apply (quest_create_then_delete (mkClaims 1 "gm" true)
           "Find Water" (Some "The chip broke.") None (initial_db "hash"));
    first [discriminate | reflexivity].
Defined.

(** The game master adds an item and takes it back. *)
Lemma item_create_then_delete_at_fat_man :
  let gm := ValidToken (mkClaims 1 "gm" true) in
  let db := initial_db "hash" in
  let out1 := post_items gm (Some "Fat Man") (Some "A launcher.") None db in
  items (db_of (delete_items gm "fat-man" (db_of out1))) = items db.
Proof.
  apply (item_create_then_delete (mkClaims 1 "gm" true)
           "Fat Man" (Some "A launcher.") None (initial_db "hash"));
    first [discriminate | reflexivity].
Defined.

(** A player adds caps, which the seeded catalog does not hold. *)
Lemma uncatalogued_line_is_hidden_at_caps :
  let c := ValidToken (mkClaims 2 "U" false) in
  let out := post_inventory c (Some "caps") (Some 10) (initial_db "hash") in
  user_inventory (db_of out) !! (2, "caps") = Some (INTEGER 10)
  ∧ ∃ rows, get_inventory c (db_of out) = (Rows rows, db_of out, [])
            ∧ ∀ row, row ∈ rows → row_item_key row ≠ "caps".
Proof.
  pose proof (uncatalogued_line_is_hidden
                (mkClaims 2 "U" false) (mkClaims 1 "gm" true) "caps" (Some 10)
                (Some "Bottle caps.") None (initial_db "hash")) as H.
  destruct H as (_ & Hline & Hrows & _);
    first [discriminate | reflexivity | idtac].
  split; [exact Hline|exact Hrows].
Defined.
